(** * Aligned and large-page memory allocation of misc.cpp

    A shallow embedding of [std_aligned_alloc], [std_aligned_free],
    [aligned_large_pages_alloc_windows], [aligned_large_pages_alloc] and
    [aligned_large_pages_free] (src/misc.cpp, lines 439-597).

    The C++ functions talk to the operating system and to the C runtime.
    They are embedded as computations in a small monad that threads the
    state of the process ([World]), records every call that leaves the
    program ([Call]) and can stop the process ([Exited]).  What the
    operating system answers is read from an oracle ([OS]) over which every
    theorem quantifies, so that "on every execution path" is "for every
    oracle".  The preprocessor conditionals are embedded as tests on a
    record of the macros that select them ([Platform]). *)

From Stdlib Require Import ZArith List String Ascii Bool Lia.
From Stdlib Require Import HexadecimalString.
From Stdlib Require DecimalString DecimalN.
Import ListNotations.
Open Scope Z_scope.

(** ** Build configuration: the macros the code tests *)

Record Platform := {
  _WIN32 : bool;
  _WIN64 : bool;
  _M_ARM : bool;
  _M_ARM64 : bool;
  __APPLE__ : bool;
  __ANDROID__ : bool;
  __OpenBSD__ : bool;
  __GLIBCXX__ : bool;
  _GLIBCXX_HAVE_ALIGNED_ALLOC : bool;
  __e2k__ : bool;
  __linux__ : bool;
  (** whether the system headers define the macro MADV_HUGEPAGE *)
  defined_MADV_HUGEPAGE : bool;
  (** whether pointers and size_t are 64 bits wide on a non-Windows target *)
  __LP64__ : bool
}.

(** misc.cpp, lines 69-74. *)
Definition POSIXALIGNEDALLOC (pf : Platform) : bool :=
  __APPLE__ pf || __ANDROID__ pf || __OpenBSD__ pf
  || (__GLIBCXX__ pf && negb (_GLIBCXX_HAVE_ALIGNED_ALLOC pf) && negb (_WIN32 pf))
  || __e2k__ pf.

(** Width of size_t (and of a pointer) on the target. *)
Definition size_t_bits (pf : Platform) : Z :=
  if _WIN32 pf then (if _WIN64 pf then 64 else 32)
  else (if __LP64__ pf then 64 else 32).

Definition sizeof_pointer (pf : Platform) : Z := size_t_bits pf / 8.

(** ** Unsigned machine arithmetic on size_t *)

Definition wrap (bits x : Z) : Z := x mod 2 ^ bits.

Definition size_add (bits a b : Z) : Z := wrap bits (a + b).
Definition size_sub (bits a b : Z) : Z := wrap bits (a - b).
Definition size_mul (bits a b : Z) : Z := wrap bits (a * b).
Definition size_div (a b : Z) : Z := a / b.
Definition size_not (bits a : Z) : Z := wrap bits (Z.lnot a).
Definition size_and (a b : Z) : Z := Z.land a b.

(** ** Constants of the system headers *)

Definition nullptr : Z := 0.

Definition MEM_COMMIT : Z := 0x1000.
Definition MEM_RESERVE : Z := 0x2000.
Definition MEM_RELEASE : Z := 0x8000.
Definition MEM_LARGE_PAGES : Z := 0x20000000.
Definition PAGE_READWRITE : Z := 0x04.
Definition TOKEN_ADJUST_PRIVILEGES : Z := 0x0020.
Definition TOKEN_QUERY : Z := 0x0008.
Definition SE_PRIVILEGE_ENABLED : Z := 0x2.
Definition ERROR_SUCCESS : Z := 0.
Definition ERROR_NOT_ALL_ASSIGNED : Z := 1300.
Definition EXIT_FAILURE : Z := 1.
Definition MADV_HUGEPAGE : Z := 14.
(** The pseudo handle GetCurrentProcess() returns. *)
Definition CurrentProcess : Z := -1.

Record LUID_AND_ATTRIBUTES := {
  Luid : Z;
  Attributes : Z
}.

(** TOKEN_PRIVILEGES has room for one entry (ANYSIZE_ARRAY = 1). *)
Record TOKEN_PRIVILEGES := {
  PrivilegeCount : Z;
  Privileges0 : LUID_AND_ATTRIBUTES
}.

Definition sizeof_TOKEN_PRIVILEGES : Z := 16.

(** ** The process state *)

(** The privileges held by the process token, with their attributes. *)
Definition PrivilegeTable := list LUID_AND_ATTRIBUTES.

Record World := {
  (** live memory blocks: base address and number of bytes asked for *)
  heap : list (Z * Z);
  token_privileges : PrivilegeTable;
  open_handles : list Z;
  last_error : Z;
  (** everything written to std::cerr so far *)
  cerr : string
}.

Definition set_heap (h : list (Z * Z)) (w : World) : World :=
  {| heap := h; token_privileges := token_privileges w;
     open_handles := open_handles w; last_error := last_error w;
     cerr := cerr w |}.

Definition set_token_privileges (p : PrivilegeTable) (w : World) : World :=
  {| heap := heap w; token_privileges := p;
     open_handles := open_handles w; last_error := last_error w;
     cerr := cerr w |}.

Definition set_open_handles (hs : list Z) (w : World) : World :=
  {| heap := heap w; token_privileges := token_privileges w;
     open_handles := hs; last_error := last_error w;
     cerr := cerr w |}.

Definition set_last_error (e : Z) (w : World) : World :=
  {| heap := heap w; token_privileges := token_privileges w;
     open_handles := open_handles w; last_error := e;
     cerr := cerr w |}.

Definition set_cerr (s : string) (w : World) : World :=
  {| heap := heap w; token_privileges := token_privileges w;
     open_handles := open_handles w; last_error := last_error w;
     cerr := s |}.

(** ** Calls that leave the program, with what they returned *)

Inductive Call : Type :=
| GetLargePageMinimum_call (ret : Z)
| GetModuleHandle_call (name : string) (ret : Z)
| LoadLibrary_call (name : string) (ret : Z)
| GetProcAddress_call (module : Z) (name : string) (ret : Z)
| OpenProcessToken_call (process access : Z) (ok : bool) (token : Z)
| LookupPrivilegeValue_call (systemName : Z) (name : string) (ok : bool)
    (luid : Z)
| AdjustTokenPrivileges_call (token : Z) (disableAll : bool)
    (newState : TOKEN_PRIVILEGES) (bufferLength : Z) (wantPrevious : bool)
    (ok : bool) (previousState : TOKEN_PRIVILEGES)
| GetLastError_call (ret : Z)
| VirtualAlloc_call (address size allocationType protect : Z) (ret : Z)
| VirtualFree_call (address size freeType : Z) (ok : bool)
| CloseHandle_call (handle : Z)
| posix_memalign_call (alignment size : Z) (rc mem : Z)
| _mm_malloc_call (size alignment : Z) (ret : Z)
| _aligned_malloc_call (size alignment : Z) (ret : Z)
| aligned_alloc_call (alignment size : Z) (ret : Z)
| free_call (ptr : Z)
| _mm_free_call (ptr : Z)
| _aligned_free_call (ptr : Z)
| madvise_call (addr length advice : Z)
| exit_call (status : Z).

(** ** The oracle: what the operating system and the C runtime answer *)

Record AdjustResult := {
  adj_ok : bool;                   (* the BOOL the call returns *)
  adj_error : Z;                   (* the last-error code it leaves *)
  adj_previous : TOKEN_PRIVILEGES; (* what it stores in PreviousState *)
  adj_table : PrivilegeTable       (* the privileges of the token afterwards *)
}.

Record OS := {
  os_GetLargePageMinimum : Z;
  os_GetModuleHandle : string -> Z;
  os_LoadLibrary : string -> Z;
  os_GetProcAddress : Z -> string -> Z;
  os_OpenProcessToken : Z -> Z -> bool * Z;
  os_LookupPrivilegeValue : Z -> string -> bool * Z;
  os_AdjustTokenPrivileges :
    Z -> bool -> TOKEN_PRIVILEGES -> Z -> bool -> PrivilegeTable -> AdjustResult;
  os_VirtualAlloc : Z -> Z -> Z -> Z -> Z;
  os_VirtualFree : Z -> Z -> Z -> bool * Z;
  os_posix_memalign : Z -> Z -> Z * Z;
  os__mm_malloc : Z -> Z -> Z;
  os__aligned_malloc : Z -> Z -> Z;
  os_aligned_alloc : Z -> Z -> Z
}.

(** ** The monad: state, log of calls, process exit *)

Inductive Outcome (A : Type) : Type :=
| Returned (a : A) (w : World) (t : list Call)
| Exited (status : Z) (w : World) (t : list Call).
Arguments Returned {A} a w t.
Arguments Exited {A} status w t.

Definition M (A : Type) : Type := World -> Outcome A.

Definition ret {A : Type} (a : A) : M A := fun w => Returned a w [].

Definition bind {A B : Type} (m : M A) (f : A -> M B) : M B :=
  fun w =>
    match m w with
    | Returned a w1 t1 =>
        match f a w1 with
        | Returned b w2 t2 => Returned b w2 (t1 ++ t2)
        | Exited s w2 t2 => Exited s w2 (t1 ++ t2)
        end
    | Exited s w1 t1 => Exited s w1 t1
    end.

Declare Scope M_scope.
Delimit Scope M_scope with M.
Notation "x <- m ;; k" := (bind m (fun x => k))
  (at level 61, m at next level, right associativity) : M_scope.
Notation "' pat <- m ;; k" := (bind m (fun x => match x with pat => k end))
  (at level 61, pat pattern, m at next level, right associativity) : M_scope.
Notation "m ;; k" := (bind m (fun _ => k))
  (at level 61, right associativity) : M_scope.
Open Scope M_scope.

(** One call: update the world, log the call, return the answer. *)
Definition call {A : Type} (a : A) (upd : World -> World) (c : Call) : M A :=
  fun w => Returned a (upd w) [c].

Definition value {A : Type} (o : Outcome A) : option A :=
  match o with Returned a _ _ => Some a | Exited _ _ _ => None end.

Definition world_of {A : Type} (o : Outcome A) : World :=
  match o with Returned _ w _ => w | Exited _ w _ => w end.

Definition trace {A : Type} (o : Outcome A) : list Call :=
  match o with Returned _ _ t => t | Exited _ _ t => t end.

Definition exit_status {A : Type} (o : Outcome A) : option Z :=
  match o with Returned _ _ _ => None | Exited s _ _ => Some s end.

(** ** Bookkeeping of the heap and of the handles *)

Definition add_block (p size : Z) (w : World) : World :=
  if p =? nullptr then w else set_heap ((p, size) :: heap w) w.

(** Releasing the null pointer does nothing: the C standard says so of
    [free], and the runtime documents the same of [_aligned_free] and
    [_mm_free]. *)
Definition remove_block (p : Z) (w : World) : World :=
  if p =? nullptr then w
  else set_heap (filter (fun b => negb (fst b =? p)) (heap w)) w.

(** What a release function may be given: the null pointer, or the base of
    a block that is live.  For any other address the behaviour of [free],
    [_mm_free] and [_aligned_free] is undefined in C; [remove_block] is
    their effect on the pointers they may be given, and what is stated of
    these functions is stated for those. *)
Definition releasable (p : Z) (w : World) : bool :=
  (p =? nullptr) || existsb (fun b => fst b =? p) (heap w).

Definition add_handle (h : Z) (w : World) : World :=
  set_open_handles (h :: open_handles w) w.

Definition remove_handle (h : Z) (w : World) : World :=
  set_open_handles (remove Z.eq_dec h (open_handles w)) w.

(** [std::hex << err]: lower-case digits, no prefix, no leading zero. *)
Definition hex (n : Z) : string :=
  NilZero.string_of_uint (N.to_hex_uint (Z.to_N n)).

Definition endl : string := String "010"%char EmptyString.

(** ** The program *)

Section Program.

Variable pf : Platform.
Variable os : OS.

(** *** System and runtime calls *)

Definition GetLargePageMinimum : M Z :=
  let r := os_GetLargePageMinimum os in
  call r id (GetLargePageMinimum_call r).

Definition GetModuleHandle (name : string) : M Z :=
  let r := os_GetModuleHandle os name in
  call r id (GetModuleHandle_call name r).

Definition LoadLibrary (name : string) : M Z :=
  let r := os_LoadLibrary os name in
  call r id (LoadLibrary_call name r).

Definition GetProcAddress (module : Z) (name : string) : M Z :=
  let r := os_GetProcAddress os module name in
  call r id (GetProcAddress_call module name r).

(** Returns the BOOL and the handle stored through the out-parameter. *)
Definition OpenProcessToken (process access : Z) : M (bool * Z) :=
  let '(ok, h) := os_OpenProcessToken os process access in
  call (ok, h) (if ok then add_handle h else id)
       (OpenProcessToken_call process access ok h).

Definition LookupPrivilegeValue (systemName : Z) (name : string)
  : M (bool * Z) :=
  let '(ok, luid) := os_LookupPrivilegeValue os systemName name in
  call (ok, luid) id (LookupPrivilegeValue_call systemName name ok luid).

(** Returns the BOOL and what was stored in PreviousState. *)
Definition AdjustTokenPrivileges (token : Z) (disableAll : bool)
    (newState : TOKEN_PRIVILEGES) (bufferLength : Z) (wantPrevious : bool)
  : M (bool * TOKEN_PRIVILEGES) :=
  fun w =>
    let r := os_AdjustTokenPrivileges os token disableAll newState
               bufferLength wantPrevious (token_privileges w) in
    Returned (adj_ok r, adj_previous r)
      (set_last_error (adj_error r) (set_token_privileges (adj_table r) w))
      [AdjustTokenPrivileges_call token disableAll newState bufferLength
         wantPrevious (adj_ok r) (adj_previous r)].

Definition GetLastError : M Z :=
  fun w => Returned (last_error w) w [GetLastError_call (last_error w)].

Definition VirtualAlloc (address size allocationType protect : Z) : M Z :=
  let r := os_VirtualAlloc os address size allocationType protect in
  call r (add_block r size)
       (VirtualAlloc_call address size allocationType protect r).

Definition VirtualFree (address size freeType : Z) : M bool :=
  let '(ok, err) := os_VirtualFree os address size freeType in
  call ok (if ok then remove_block address else set_last_error err)
       (VirtualFree_call address size freeType ok).

Definition CloseHandle (h : Z) : M unit :=
  call tt (remove_handle h) (CloseHandle_call h).

(** Returns the int result and what was stored through the first argument. *)
Definition posix_memalign (alignment size : Z) : M (Z * Z) :=
  let '(rc, mem) := os_posix_memalign os alignment size in
  call (rc, mem) (if rc =? 0 then add_block mem size else id)
       (posix_memalign_call alignment size rc mem).

Definition _mm_malloc (size alignment : Z) : M Z :=
  let r := os__mm_malloc os size alignment in
  call r (add_block r size) (_mm_malloc_call size alignment r).

Definition _aligned_malloc (size alignment : Z) : M Z :=
  let r := os__aligned_malloc os size alignment in
  call r (add_block r size) (_aligned_malloc_call size alignment r).

Definition aligned_alloc (alignment size : Z) : M Z :=
  let r := os_aligned_alloc os alignment size in
  call r (add_block r size) (aligned_alloc_call alignment size r).

Definition free (ptr : Z) : M unit :=
  call tt (remove_block ptr) (free_call ptr).

Definition _mm_free (ptr : Z) : M unit :=
  call tt (remove_block ptr) (_mm_free_call ptr).

Definition _aligned_free (ptr : Z) : M unit :=
  call tt (remove_block ptr) (_aligned_free_call ptr).

(** The int result of madvise is not used by the program. *)
Definition madvise (addr length advice : Z) : M unit :=
  call tt id (madvise_call addr length advice).

Definition cerr_write (s : string) : M unit :=
  fun w => Returned tt (set_cerr (cerr w ++ s)%string w) [].

Definition exit {A : Type} (status : Z) : M A :=
  fun w => Exited status w [exit_call status].

(** *** misc.cpp, lines 442-454 *)
Definition std_aligned_alloc (alignment size : Z) : M Z :=
  if POSIXALIGNEDALLOC pf then
    ' (rc, mem) <- posix_memalign alignment size ;;
    ret (if negb (rc =? 0) then nullptr else mem)
  else if _WIN32 pf && negb (_M_ARM pf) && negb (_M_ARM64 pf) then
    _mm_malloc size alignment
  else if _WIN32 pf then
    _aligned_malloc size alignment
  else
    aligned_alloc alignment size.

(** *** misc.cpp, lines 456-467 *)
Definition std_aligned_free (ptr : Z) : M unit :=
  if POSIXALIGNEDALLOC pf then
    free ptr
  else if _WIN32 pf && negb (_M_ARM pf) && negb (_M_ARM64 pf) then
    _mm_free ptr
  else if _WIN32 pf then
    _aligned_free ptr
  else
    free ptr.

(** [(allocSize + largePageSize - 1) & ~size_t(largePageSize - 1)] on the
    64-bit size_t of a _WIN64 build (line 527). *)
Definition round_up_to_large_page (allocSize largePageSize : Z) : Z :=
  size_and (size_sub 64 (size_add 64 allocSize largePageSize) 1)
           (size_not 64 (size_sub 64 largePageSize 1)).

(** *** misc.cpp, lines 473-542 *)
Definition aligned_large_pages_alloc_windows (allocSize : Z) : M Z :=
  if negb (_WIN64 pf) then
    ret nullptr
  else
    let mem := nullptr in
    largePageSize <- GetLargePageMinimum ;;
    if largePageSize =? 0 then ret nullptr else
    hAdvapi32 <- GetModuleHandle "advapi32.dll" ;;
    hAdvapi32 <- (if hAdvapi32 =? 0 then LoadLibrary "advapi32.dll"
                  else ret hAdvapi32) ;;
    fun6 <- GetProcAddress hAdvapi32 "OpenProcessToken" ;;
    if fun6 =? 0 then ret nullptr else
    fun7 <- GetProcAddress hAdvapi32 "LookupPrivilegeValueA" ;;
    if fun7 =? 0 then ret nullptr else
    fun8 <- GetProcAddress hAdvapi32 "AdjustTokenPrivileges" ;;
    if fun8 =? 0 then ret nullptr else
    ' (opened, hProcessToken) <-
        OpenProcessToken CurrentProcess
          (Z.lor TOKEN_ADJUST_PRIVILEGES TOKEN_QUERY) ;;
    if negb opened then ret nullptr else
    mem <-
      (' (found, luid) <-
           LookupPrivilegeValue nullptr "SeLockMemoryPrivilege" ;;
       if found then
         let tp := {| PrivilegeCount := 1;
                      Privileges0 := {| Luid := luid;
                                        Attributes := SE_PRIVILEGE_ENABLED |} |} in
         ' (adjusted, prevTp) <-
             AdjustTokenPrivileges hProcessToken false tp
               sizeof_TOKEN_PRIVILEGES true ;;
         enabled <- (if adjusted
                     then (err <- GetLastError ;; ret (err =? ERROR_SUCCESS))
                     else ret false) ;;
         if enabled then
           let allocSize := round_up_to_large_page allocSize largePageSize in
           mem <- VirtualAlloc nullptr allocSize
                    (Z.lor (Z.lor MEM_RESERVE MEM_COMMIT) MEM_LARGE_PAGES)
                    PAGE_READWRITE ;;
           AdjustTokenPrivileges hProcessToken false prevTp 0 false ;;
           ret mem
         else ret mem
       else ret mem) ;;
    CloseHandle hProcessToken ;;
    ret mem.

(** [constexpr size_t alignment] of lines 560-564. *)
Definition alignment : Z :=
  if __linux__ pf then 2 * 1024 * 1024 else 4096.

(** [((allocSize + alignment - 1) / alignment) * alignment] on size_t
    (line 567). *)
Definition round_up_to_alignment (allocSize : Z) : Z :=
  let bits := size_t_bits pf in
  size_mul bits
    (size_div (size_sub bits (size_add bits allocSize alignment) 1) alignment)
    alignment.

(** *** misc.cpp, lines 544-554 (_WIN32) and 558-573 (otherwise) *)
Definition aligned_large_pages_alloc (allocSize : Z) : M Z :=
  if _WIN32 pf then
    mem <- aligned_large_pages_alloc_windows allocSize ;;
    mem <- (if mem =? nullptr
            then VirtualAlloc nullptr allocSize (Z.lor MEM_RESERVE MEM_COMMIT)
                   PAGE_READWRITE
            else ret mem) ;;
    ret mem
  else
    let size := round_up_to_alignment allocSize in
    mem <- std_aligned_alloc alignment size ;;
    (if defined_MADV_HUGEPAGE pf then madvise mem size MADV_HUGEPAGE
     else ret tt) ;;
    ret mem.

(** *** misc.cpp, lines 582-591 (_WIN32) and 595 (otherwise) *)
Definition aligned_large_pages_free (mem : Z) : M unit :=
  if _WIN32 pf then
    failed <- (if negb (mem =? nullptr)
               then (ok <- VirtualFree mem 0 MEM_RELEASE ;; ret (negb ok))
               else ret false) ;;
    if failed then
      err <- GetLastError ;;
      cerr_write ("Failed to free large page memory. Error code: 0x"
                    ++ hex err ++ endl) ;;
      exit EXIT_FAILURE
    else ret tt
  else
    std_aligned_free mem.

End Program.

(** ** Trace predicates used by the statements *)

(** A failure the operating system reports to the large-page helper while it
    negotiates the privilege: no large-page support, an entry point that
    does not resolve, the token that cannot be opened, the privilege that
    cannot be looked up, the enabling adjustment refused, or a last-error
    code other than ERROR_SUCCESS after it. *)
Definition negotiation_failure (c : Call) : bool :=
  match c with
  | GetLargePageMinimum_call r => r =? 0
  | GetProcAddress_call _ _ r => r =? 0
  | OpenProcessToken_call _ _ ok _ => negb ok
  | LookupPrivilegeValue_call _ _ ok _ => negb ok
  | AdjustTokenPrivileges_call _ _ _ _ true ok _ => negb ok
  | GetLastError_call e => negb (e =? ERROR_SUCCESS)
  | _ => false
  end.

(** A VirtualAlloc call that carries the MEM_LARGE_PAGES flag. *)
Definition is_large_page_alloc (c : Call) : bool :=
  match c with
  | VirtualAlloc_call _ _ allocationType _ _ =>
      negb (Z.land allocationType MEM_LARGE_PAGES =? 0)
  | _ => false
  end.

(** The request that enables one privilege. *)
Definition enable_request (luid : Z) : TOKEN_PRIVILEGES :=
  {| PrivilegeCount := 1;
     Privileges0 := {| Luid := luid; Attributes := SE_PRIVILEGE_ENABLED |} |}.

(** The three calls by which the lock-memory privilege is confirmed enabled:
    the lookup succeeded, the adjustment returned TRUE and the last-error
    code read after it is ERROR_SUCCESS. *)
Definition privilege_confirmed (luid token : Z)
    (previous : TOKEN_PRIVILEGES) : list Call :=
  [ LookupPrivilegeValue_call nullptr "SeLockMemoryPrivilege" true luid;
    AdjustTokenPrivileges_call token false (enable_request luid)
      sizeof_TOKEN_PRIVILEGES true true previous;
    GetLastError_call ERROR_SUCCESS ].

(** What the program relies on from AdjustTokenPrivileges when it restores
    the privileges: passing back the previous state that a successful
    adjustment saved puts the token's privileges back as they were. *)
Definition restores_saved_state (os : OS) : Prop :=
  forall (token : Z) (newState : TOKEN_PRIVILEGES) (bufferLength : Z)
         (table : PrivilegeTable),
    let r := os_AdjustTokenPrivileges os token false newState bufferLength
               true table in
    adj_ok r = true ->
    adj_error r = ERROR_SUCCESS ->
    adj_table (os_AdjustTokenPrivileges os token false (adj_previous r) 0
                 false (adj_table r)) = table.

(** A power of two, as the alignment arguments must be. *)
Definition is_power_of_two (a : Z) : bool :=
  (0 <? a) && (Z.land a (a - 1) =? 0).

(** An alignment the aligned allocators accept: a power of two that is a
    multiple of the size of a pointer. *)
Definition valid_alignment (pf : Platform) (a : Z) : bool :=
  is_power_of_two a && (a mod sizeof_pointer pf =? 0).

(** What the program relies on from the aligned allocators of the runtime:
    given a valid alignment, the pointer they hand out is a multiple of
    it (the null pointer is). *)
Definition aligned_backends (pf : Platform) (os : OS) : Prop :=
  forall a size : Z,
    valid_alignment pf a = true ->
    (fst (os_posix_memalign os a size) = 0 ->
     snd (os_posix_memalign os a size) mod a = 0)
    /\ os__mm_malloc os size a mod a = 0
    /\ os__aligned_malloc os size a mod a = 0
    /\ os_aligned_alloc os a size mod a = 0.

(** The rounded size in the words of the specification:
    [ceil(requestedSize / pageGranularity) * pageGranularity]. *)
Definition ceil_div (s g : Z) : Z :=
  s / g + (if s mod g =? 0 then 0 else 1).

Definition spec_roundedSize (s g : Z) : Z := ceil_div s g * g.

(** Number of line ends in a text. *)
Fixpoint count_newlines (s : string) : nat :=
  match s with
  | EmptyString => 0%nat
  | String c rest =>
      ((if Ascii.eqb c "010"%char then 1 else 0) + count_newlines rest)%nat
  end.

(** ** Concrete platforms and oracles, for evaluating the program *)

(** 64-bit Windows on x86-64. *)
Definition windows_x64 : Platform :=
  {| _WIN32 := true; _WIN64 := true; _M_ARM := false; _M_ARM64 := false;
     __APPLE__ := false; __ANDROID__ := false; __OpenBSD__ := false;
     __GLIBCXX__ := false; _GLIBCXX_HAVE_ALIGNED_ALLOC := false;
     __e2k__ := false; __linux__ := false; defined_MADV_HUGEPAGE := false;
     __LP64__ := false |}.

(** 32-bit Windows on x86. *)
Definition windows_x86 : Platform :=
  {| _WIN32 := true; _WIN64 := false; _M_ARM := false; _M_ARM64 := false;
     __APPLE__ := false; __ANDROID__ := false; __OpenBSD__ := false;
     __GLIBCXX__ := false; _GLIBCXX_HAVE_ALIGNED_ALLOC := false;
     __e2k__ := false; __linux__ := false; defined_MADV_HUGEPAGE := false;
     __LP64__ := false |}.

(** 64-bit Linux with glibc and libstdc++. *)
Definition linux_x86_64 : Platform :=
  {| _WIN32 := false; _WIN64 := false; _M_ARM := false; _M_ARM64 := false;
     __APPLE__ := false; __ANDROID__ := false; __OpenBSD__ := false;
     __GLIBCXX__ := true; _GLIBCXX_HAVE_ALIGNED_ALLOC := true;
     __e2k__ := false; __linux__ := true; defined_MADV_HUGEPAGE := true;
     __LP64__ := true |}.

(** 64-bit macOS. *)
Definition macos_arm64 : Platform :=
  {| _WIN32 := false; _WIN64 := false; _M_ARM := false; _M_ARM64 := false;
     __APPLE__ := true; __ANDROID__ := false; __OpenBSD__ := false;
     __GLIBCXX__ := false; _GLIBCXX_HAVE_ALIGNED_ALLOC := false;
     __e2k__ := false; __linux__ := false; defined_MADV_HUGEPAGE := false;
     __LP64__ := true |}.

(** Set the attributes of the first entry for [luid]; gives the attributes it
    had and the new table, or [None] when the token does not hold [luid]. *)
Fixpoint set_attributes (luid attrs : Z) (table : PrivilegeTable)
  : option (Z * PrivilegeTable) :=
  match table with
  | [] => None
  | e :: rest =>
      if Luid e =? luid
      then Some (Attributes e, {| Luid := luid; Attributes := attrs |} :: rest)
      else match set_attributes luid attrs rest with
           | Some (old, rest') => Some (old, e :: rest')
           | None => None
           end
  end.

(** An AdjustTokenPrivileges that behaves as documented on a request of at
    most one privilege: the attributes are set and the old ones saved when
    the token holds the privilege, and the call reports
    ERROR_NOT_ALL_ASSIGNED and changes nothing when it does not. *)
Definition sample_AdjustTokenPrivileges (token : Z) (disableAll : bool)
    (newState : TOKEN_PRIVILEGES) (bufferLength : Z) (wantPrevious : bool)
    (table : PrivilegeTable) : AdjustResult :=
  let none := {| PrivilegeCount := 0;
                 Privileges0 := {| Luid := 0; Attributes := 0 |} |} in
  if PrivilegeCount newState =? 0 then
    {| adj_ok := true; adj_error := ERROR_SUCCESS;
       adj_previous := none; adj_table := table |}
  else
    let luid := Luid (Privileges0 newState) in
    match set_attributes luid (Attributes (Privileges0 newState)) table with
    | Some (old, table') =>
        {| adj_ok := true; adj_error := ERROR_SUCCESS;
           adj_previous :=
             {| PrivilegeCount := 1;
                Privileges0 := {| Luid := luid; Attributes := old |} |};
           adj_table := table' |}
    | None =>
        {| adj_ok := true; adj_error := ERROR_NOT_ALL_ASSIGNED;
           adj_previous := none; adj_table := table |}
    end.

(** An operating system on which every call succeeds: large pages of 2 MiB,
    allocations placed at a fixed address that is a multiple of 2 MiB for
    large pages and of the requested alignment otherwise. *)
Definition sample_os : OS :=
  {| os_GetLargePageMinimum := 2 * 1024 * 1024;
     os_GetModuleHandle := fun _ => 0x76000000;
     os_LoadLibrary := fun _ => 0x76000000;
     os_GetProcAddress := fun module name =>
       module + 0x100 * Z.of_nat (String.length name);
     os_OpenProcessToken := fun _ _ => (true, 0x1f4);
     os_LookupPrivilegeValue := fun _ _ => (true, 4);
     os_AdjustTokenPrivileges := sample_AdjustTokenPrivileges;
     os_VirtualAlloc := fun _ _ allocationType _ =>
       if Z.land allocationType MEM_LARGE_PAGES =? 0
       then 0x10000 else 0x40000000;
     os_VirtualFree := fun _ _ _ => (true, 0);
     os_posix_memalign := fun alignment _ => (0, 16 * alignment);
     os__mm_malloc := fun _ alignment => 16 * alignment;
     os__aligned_malloc := fun _ alignment => 16 * alignment;
     os_aligned_alloc := fun alignment _ => 16 * alignment |}.

(** The same system for a process whose token cannot be opened, and whose
    VirtualFree fails with ERROR_INVALID_ADDRESS (487). *)
Definition sample_os_denied : OS :=
  {| os_GetLargePageMinimum := 2 * 1024 * 1024;
     os_GetModuleHandle := fun _ => 0x76000000;
     os_LoadLibrary := fun _ => 0x76000000;
     os_GetProcAddress := fun module name =>
       module + 0x100 * Z.of_nat (String.length name);
     os_OpenProcessToken := fun _ _ => (false, 0);
     os_LookupPrivilegeValue := fun _ _ => (true, 4);
     os_AdjustTokenPrivileges := sample_AdjustTokenPrivileges;
     os_VirtualAlloc := fun _ _ allocationType _ =>
       if Z.land allocationType MEM_LARGE_PAGES =? 0
       then 0x10000 else 0x40000000;
     os_VirtualFree := fun _ _ _ => (false, 487);
     os_posix_memalign := fun alignment _ => (0, 16 * alignment);
     os__mm_malloc := fun _ alignment => 16 * alignment;
     os__aligned_malloc := fun _ alignment => 16 * alignment;
     os_aligned_alloc := fun alignment _ => 16 * alignment |}.

(** A process that holds the lock-memory privilege (LUID 4), disabled. *)
Definition sample_world : World :=
  {| heap := [];
     token_privileges := [ {| Luid := 4; Attributes := 0 |} ];
     open_handles := [];
     last_error := 0;
     cerr := "" |}.

(** * The rest of misc.cpp *)

(** ** Which release function goes with which allocation *)

(** The families of allocation primitives: memory obtained from one family
    must be released by the release function of the same family. *)
Inductive Family : Type :=
| VirtualMemory   (* VirtualAlloc / VirtualFree *)
| CHeap           (* posix_memalign, aligned_alloc / free *)
| MMAlloc         (* _mm_malloc / _mm_free *)
| CRTAligned.     (* _aligned_malloc / _aligned_free *)

Definition allocator_family (c : Call) : option Family :=
  match c with
  | VirtualAlloc_call _ _ _ _ _ => Some VirtualMemory
  | posix_memalign_call _ _ _ _ => Some CHeap
  | aligned_alloc_call _ _ _ => Some CHeap
  | _mm_malloc_call _ _ _ => Some MMAlloc
  | _aligned_malloc_call _ _ _ => Some CRTAligned
  | _ => None
  end.

Definition releaser_family (c : Call) : option Family :=
  match c with
  | VirtualFree_call _ _ _ _ => Some VirtualMemory
  | free_call _ => Some CHeap
  | _mm_free_call _ => Some MMAlloc
  | _aligned_free_call _ => Some CRTAligned
  | _ => None
  end.

(** ** Parsing a size (misc.cpp, lines 608-616) *)

Definition is_digit (c : ascii) : bool :=
  let n := Z.of_N (N_of_ascii c) in (48 <=? n) && (n <=? 57).

Definition digit_value (c : ascii) : Z := Z.of_N (N_of_ascii c) - 48.

(** The longest run of decimal digits at the start of [s]: the number it
    denotes, continuing [acc], and how many characters it has. *)
Fixpoint scan_digits (acc : Z) (count : nat) (s : string) : Z * nat :=
  match s with
  | String c rest =>
      if is_digit c
      then scan_digits (acc * 10 + digit_value c) (S count) rest
      else (acc, count)
  | EmptyString => (acc, count)
  end.

Inductive errc : Type :=
| invalid_argument
| result_out_of_range.

(** What [std::from_chars(first, last, value)] gives for an unsigned integer
    of [bits] bits in base 10: the pattern is the longest prefix of decimal
    digits (no sign, no white space skipped).  [parsed]: [ec] is
    [std::errc()], the number is stored in [value], [ptr] is past the
    pattern.  [failed]: [value] is left alone; no digit at all is
    [invalid_argument], a number that does not fit is
    [result_out_of_range]. *)
Inductive from_chars_result : Type :=
| parsed (value : Z) (ptr : nat)
| failed (ec : errc) (ptr : nat).

Definition from_chars (bits : Z) (s : string) : from_chars_result :=
  let '(v, n) := scan_digits 0 0 s in
  match n with
  | O => failed invalid_argument 0
  | S _ => if v <? 2 ^ bits then parsed v n else failed result_out_of_range n
  end.

Definition str_to_size_t (pf : Platform) (s : string) : M Z :=
  match from_chars (size_t_bits pf) s with
  | failed _ _ => exit EXIT_FAILURE
  | parsed value _ => ret value
  end.

(** A number written in decimal, as [std::to_string] writes it. *)
Definition decimal (n : Z) : string :=
  DecimalString.NilZero.string_of_uint (N.to_uint (Z.to_N n)).

(** ** The directory of the binary (misc.cpp, lines 618-660) *)

(** What the C runtime answers: [getcwd(buff, size)] gives the working
    directory or a null pointer; [_get_pgmptr(&pgmptr)] gives an error code
    and the pointer it stored. *)
Record CRT := {
  crt_getcwd : Z -> option string;
  crt__get_pgmptr : Z * option string
}.

Definition char_in (c : ascii) (chars : string) : bool :=
  existsb (Ascii.eqb c) (list_ascii_of_string chars).

(** [s.find_last_of(chars)]: the last position of [s] that holds one of
    [chars]; [None] is [npos]. *)
Fixpoint find_last_of (chars s : string) : option nat :=
  match s with
  | EmptyString => None
  | String c rest =>
      match find_last_of chars rest with
      | Some i => Some (S i)
      | None => if char_in c chars then Some O else None
      end
  end.

Fixpoint nul_chars (n : nat) : string :=
  match n with
  | O => EmptyString
  | S n' => String zero (nul_chars n')
  end.

(** [s.resize(n)]: the first [n] characters, or [s] filled up with [char()]. *)
Definition resize (n : nat) (s : string) : string :=
  if (n <=? String.length s)%nat then substring 0 n s
  else (s ++ nul_chars (n - String.length s))%string.

(** [s.find(str)]: where [str] first occurs in [s]; [None] is [npos]. *)
Definition find (str s : string) : option nat := index 0 str s.

(** [s.replace(pos, len, str)], for [pos] not beyond the end of [s]. *)
Definition replace (pos len : nat) (str s : string) : string :=
  let n := Nat.min len (String.length s - pos) in
  (substring 0 pos s ++ str
   ++ substring (pos + n) (String.length s - (pos + n)) s)%string.

(** *** misc.cpp, lines 652-660 *)
Definition get_working_directory (crt : CRT) : string :=
  let workingDirectory := EmptyString in
  match crt_getcwd crt 40000 with
  | Some cwd => cwd
  | None => workingDirectory
  end.

(** Lines 621-632: the path separator, and [argv0] after the _MSC_VER
    block. *)
Definition pathSeparator (pf : Platform) : string :=
  if _WIN32 pf then (String "092" EmptyString) else "/".

Definition program_path (pf : Platform) (_MSC_VER : bool) (crt : CRT)
    (argv0 : string) : string :=
  if _WIN32 pf && _MSC_VER then
    match crt__get_pgmptr crt with
    | (rc, Some pgmptr) =>
        if (rc =? 0) && negb (String.eqb pgmptr EmptyString)
        then pgmptr else argv0
    | (_, None) => argv0
    end
  else argv0.

(** *** misc.cpp, lines 618-650 *)
Definition get_binary_directory (pf : Platform) (_MSC_VER : bool) (crt : CRT)
    (argv0 : string) : string :=
  let argv0 := program_path pf _MSC_VER crt argv0 in
  let workingDirectory := get_working_directory crt in
  let binaryDirectory := argv0 in
  let pos := find_last_of (String "092" "/") binaryDirectory in
  let binaryDirectory :=
    match pos with
    | None => ("." ++ pathSeparator pf)%string
    | Some pos => resize (pos + 1) binaryDirectory
    end in
  let binaryDirectory :=
    match find ("." ++ pathSeparator pf) binaryDirectory with
    | Some O => replace 0 1 workingDirectory binaryDirectory
    | _ => binaryDirectory
    end in
  binaryDirectory.

(** The last character of a text. *)
Fixpoint last_char (s : string) : option ascii :=
  match s with
  | EmptyString => None
  | String c EmptyString => Some c
  | String _ rest => last_char rest
  end.

Definition is_separator (c : ascii) : bool := char_in c (String "092" "/").

(** ** The version string (misc.cpp, lines 154-194) *)

Definition version : string := "dev".

(** White space in the "C" locale. *)
Definition is_space (c : ascii) : bool :=
  let n := Z.of_N (N_of_ascii c) in (n =? 32) || ((9 <=? n) && (n <=? 13)).

Fixpoint skip_spaces (s : string) : string :=
  match s with
  | String c rest => if is_space c then skip_spaces rest else s
  | EmptyString => s
  end.

Fixpoint take_word (s : string) : string * string :=
  match s with
  | String c rest =>
      if is_space c then (EmptyString, s)
      else let '(w, r) := take_word rest in (String c w, r)
  | EmptyString => (EmptyString, s)
  end.

(** [stream >> word] for a std::string: white space is skipped, then the
    characters up to the next white space are taken; the word read and the
    rest of the stream.  Nothing left to read gives the empty word. *)
Definition extract_word (stream : string) : string * string :=
  take_word (skip_spaces stream).

Fixpoint fill_chars (n : nat) (fill : ascii) : string :=
  match n with
  | O => EmptyString
  | S n' => String fill (fill_chars n' fill)
  end.

(** [ss << std::setw(w) << std::setfill(fill) << text]: padded on the left. *)
Definition put_width (w : nat) (fill : ascii) (text : string) : string :=
  (fill_chars (w - String.length text) fill ++ text)%string.

(** [npos] of a size_t, and the result of [find] as a size_t. *)
Definition npos (pf : Platform) : Z := 2 ^ size_t_bits pf - 1.

Definition position (pf : Platform) (p : option nat) : Z :=
  match p with
  | Some n => Z.of_nat n
  | None => npos pf
  end.

Definition months : string :=
  "Jan Feb Mar Apr May Jun Jul Aug Sep Oct Nov Dec".

(** The macros the function depends on: GIT_DATE and GIT_SHA when they are
    defined, and the __DATE__ of the compiler. *)
Record BuildInfo := {
  GIT_DATE : option string;
  GIT_SHA : option string;
  __DATE__ : string
}.

Definition engine_info (pf : Platform) (build : BuildInfo) (to_uci : bool)
  : string :=
  let ss := ("Pikafish " ++ version)%string in
  let ss :=
    if String.eqb version "dev" then
      let ss := (ss ++ "-")%string in
      let ss :=
        match GIT_DATE build with
        | Some git_date => (ss ++ git_date)%string
        | None =>
            let date := __DATE__ build in
            let '(month, date) := extract_word date in
            let '(day, date) := extract_word date in
            let '(year, date) := extract_word date in
            (ss ++ year
             ++ put_width 2 "0"
                  (decimal (size_add (size_t_bits pf) 1
                              (size_div (position pf (find month months)) 4)))
             ++ put_width 2 "0" day)%string
        end in
      let ss := (ss ++ "-")%string in
      match GIT_SHA build with
      | Some git_sha => (ss ++ git_sha)%string
      | None => (ss ++ "nogit")%string
      end
    else ss in
  (ss ++ (if to_uci then String "010" "id author " else " by ")
   ++ "the Pikafish developers (see AUTHORS file)")%string.

(** The __DATE__ of ISO C, "Mmm dd yyyy", the day padded with a space. *)
Definition month_name (m : nat) : string := substring (4 * m) 3 months.

Definition date_text (m : nat) (d : Z) (year : string) : string :=
  (month_name m ++ " " ++ (if (d <? 10)%Z then " " else EmptyString) ++ decimal d
   ++ " " ++ year)%string.

Definition two_digits (n : Z) : string :=
  ((if (n <? 10)%Z then "0" else EmptyString) ++ decimal n)%string.

Fixpoint no_space (s : string) : bool :=
  match s with
  | EmptyString => true
  | String c rest => negb (is_space c) && no_space rest
  end.

(** ** Debug counters (misc.cpp, lines 317-364) *)

Definition MaxDebugSlots : Z := 32.

(** Two's complement wrap-around of int64_t, which is what the atomic
    increments and additions do. *)
Definition wrap_int64 (x : Z) : Z := (x + 2 ^ 63) mod 2 ^ 64 - 2 ^ 63.

Fixpoint update_at {A : Type} (i : nat) (f : A -> A) (l : list A) : list A :=
  match l, i with
  | [], _ => []
  | x :: rest, O => f x :: rest
  | x :: rest, S i' => x :: update_at i' f rest
  end.

(** An array of [DebugInfo<N>]: one row of N counters per slot. *)
Definition DebugArray := list (list Z).

Definition zero_array (n : nat) : DebugArray :=
  repeat (repeat 0 n) (Z.to_nat MaxDebugSlots).

(** [a[slot][index]]. *)
Definition counter (a : DebugArray) (slot index : Z) : Z :=
  nth (Z.to_nat index) (nth (Z.to_nat slot) a []) 0.

(** [a[slot][index] += v] on the atomic counter.  Indexing outside the
    array is undefined in the source; here it leaves the array alone. *)
Definition fetch_add (a : DebugArray) (slot index v : Z) : DebugArray :=
  if (slot <? 0) || (index <? 0) then a
  else update_at (Z.to_nat slot)
         (update_at (Z.to_nat index) (fun x => wrap_int64 (x + v))) a.

Record DebugTables := {
  hit : DebugArray;      (* DebugInfo<2> hit[MaxDebugSlots] *)
  mean : DebugArray;     (* DebugInfo<2> mean[MaxDebugSlots] *)
  stdev : DebugArray;    (* DebugInfo<3> stdev[MaxDebugSlots] *)
  correl : DebugArray    (* DebugInfo<6> correl[MaxDebugSlots] *)
}.

(** The tables at program start: static storage, all zero. *)
Definition debug_tables_init : DebugTables :=
  {| hit := zero_array 2; mean := zero_array 2;
     stdev := zero_array 3; correl := zero_array 6 |}.

Definition set_hit (a : DebugArray) (d : DebugTables) : DebugTables :=
  {| hit := a; mean := mean d; stdev := stdev d; correl := correl d |}.
Definition set_mean (a : DebugArray) (d : DebugTables) : DebugTables :=
  {| hit := hit d; mean := a; stdev := stdev d; correl := correl d |}.
Definition set_stdev (a : DebugArray) (d : DebugTables) : DebugTables :=
  {| hit := hit d; mean := mean d; stdev := a; correl := correl d |}.
Definition set_correl (a : DebugArray) (d : DebugTables) : DebugTables :=
  {| hit := hit d; mean := mean d; stdev := stdev d; correl := a |}.

(** The product of two int64_t; it overflows (undefined in the source)
    outside the range of int64_t, where the model wraps. *)
Definition int64_mul (a b : Z) : Z := wrap_int64 (a * b).

(** *** misc.cpp, lines 336-341 *)
Definition dbg_hit_on (cond : bool) (slot : Z) (d : DebugTables)
  : DebugTables :=
  let d := set_hit (fetch_add (hit d) slot 0 1) d in
  if cond then set_hit (fetch_add (hit d) slot 1 1) d else d.

(** *** misc.cpp, lines 343-347 *)
Definition dbg_mean_of (value slot : Z) (d : DebugTables) : DebugTables :=
  let d := set_mean (fetch_add (mean d) slot 0 1) d in
  set_mean (fetch_add (mean d) slot 1 value) d.

(** *** misc.cpp, lines 349-354 *)
Definition dbg_stdev_of (value slot : Z) (d : DebugTables) : DebugTables :=
  let d := set_stdev (fetch_add (stdev d) slot 0 1) d in
  let d := set_stdev (fetch_add (stdev d) slot 1 value) d in
  set_stdev (fetch_add (stdev d) slot 2 (int64_mul value value)) d.

(** *** misc.cpp, lines 356-364 *)
Definition dbg_correl_of (value1 value2 slot : Z) (d : DebugTables)
  : DebugTables :=
  let d := set_correl (fetch_add (correl d) slot 0 1) d in
  let d := set_correl (fetch_add (correl d) slot 1 value1) d in
  let d := set_correl (fetch_add (correl d) slot 2 (int64_mul value1 value1)) d in
  let d := set_correl (fetch_add (correl d) slot 3 value2) d in
  let d := set_correl (fetch_add (correl d) slot 4 (int64_mul value2 value2)) d in
  set_correl (fetch_add (correl d) slot 5 (int64_mul value1 value2)) d.

(** An array with a row of [n] counters for each of the slots. *)
Definition well_formed (n : nat) (a : DebugArray) : Prop :=
  List.length a = Z.to_nat MaxDebugSlots /\ Forall (fun row : list Z => List.length row = n) a.

(** Number of observations for which the condition held. *)
Definition count_true (conds : list bool) : Z :=
  Z.of_nat (List.length (filter (fun c => c) conds)).

Definition sum_values (values : list Z) : Z := fold_right Z.add 0 values.

Definition sum_of_squares (values : list Z) : Z :=
  sum_values (map (fun v => v * v) values).

Definition sum_of_products (values : list (Z * Z)) : Z :=
  sum_values (map (fun p => fst p * snd p) values).

Definition in_int64 (x : Z) : Prop := - 2 ^ 63 <= x < 2 ^ 63.

(** ** The log file (misc.cpp, lines 83-149 and 418) *)

(** [traits_type::eof()], [char(c)] for an int and [traits_type::to_int_type]
    for a char. *)
Definition EOF : Z := -1.
Definition to_char (c : Z) : ascii := ascii_of_N (Z.to_N (c mod 256)).
Definition to_int_type (ch : ascii) : Z := Z.of_N (N_of_ascii ch).

(** A stream buffer that is written to: what it received, and how many more
    characters it takes before writing fails. *)
Record OutputBuffer := {
  written : string;
  room : nat
}.

Definition sputc (ch : ascii) (b : OutputBuffer) : Z * OutputBuffer :=
  match room b with
  | O => (EOF, b)
  | S r =>
      (to_int_type ch,
       {| written := written b ++ String ch EmptyString; room := r |})
  end.

Fixpoint put_all (s : string) (b : OutputBuffer) : OutputBuffer :=
  match s with
  | EmptyString => b
  | String ch rest =>
      match room b with
      | O => b
      | S _ => put_all rest (snd (sputc ch b))
      end
  end.

(** [sputn(s, n)]: the first [n] characters of [s], as far as they fit; the
    program does not use the count it returns. *)
Definition sputn (s : string) (n : nat) (b : OutputBuffer) : OutputBuffer :=
  put_all (substring 0 n s) b.

(** A stream buffer that is read from: the characters still to come. *)
Record InputBuffer := {
  pending : string
}.

Definition sbumpc (b : InputBuffer) : Z * InputBuffer :=
  match pending b with
  | EmptyString => (EOF, b)
  | String ch rest => (to_int_type ch, {| pending := rest |})
  end.

Definition sgetc (b : InputBuffer) : Z :=
  match pending b with
  | EmptyString => EOF
  | String ch _ => to_int_type ch
  end.

(** ['\n'] as an int. *)
Definition newline : Z := 10.

Module Tie.

(** What the two Tie objects of the Logger work on: the buffers of std::cin
    and std::cout they wrap, the buffer of the log file they share, and the
    one [static int last] of [Tie::log]. *)
Record State := {
  cin_buffer : InputBuffer;
  cout_buffer : OutputBuffer;
  log_buffer : OutputBuffer;
  last : Z
}.

(** *** [Tie::log], lines 102-110 *)
Definition log (c : Z) (prefix : string) (t : State) : Z * State :=
  let lb := if last t =? newline then sputn prefix 3 (log_buffer t)
            else log_buffer t in
  let '(r, lb) := sputc (to_char c) lb in
  (r, {| cin_buffer := cin_buffer t; cout_buffer := cout_buffer t; log_buffer := lb;
         last := r |}).

(** *** [Tie::overflow] of the Tie that wraps std::cout, line 96 *)
Definition overflow (c : Z) (t : State) : Z * State :=
  let '(r, ob) := sputc (to_char c) (cout_buffer t) in
  log r "<< "
    {| cin_buffer := cin_buffer t; cout_buffer := ob; log_buffer := log_buffer t;
       last := last t |}.

(** *** [Tie::underflow] and [Tie::uflow] of the Tie that wraps std::cin,
    lines 97-98 *)
Definition underflow (t : State) : Z := sgetc (cin_buffer t).

Definition uflow (t : State) : Z * State :=
  let '(r, ib) := sbumpc (cin_buffer t) in
  log r ">> "
    {| cin_buffer := ib; cout_buffer := cout_buffer t; log_buffer := log_buffer t;
       last := last t |}.

End Tie.

(** Writing a text to std::cout while it is tied: one [overflow] for each
    character. *)
Fixpoint write_text (s : string) (t : Tie.State) : Tie.State :=
  match s with
  | EmptyString => t
  | String ch rest => write_text rest (snd (Tie.overflow (to_int_type ch) t))
  end.


(** The lines of a text, each with the line end that closes it. *)
Fixpoint lines (s : string) : list string :=
  match s with
  | EmptyString => []
  | String ch rest =>
      if Ascii.eqb ch "010"%char then String ch EmptyString :: lines rest
      else match lines rest with
           | [] => [String ch EmptyString]
           | l :: ls => String ch l :: ls
           end
  end.

(** Each line behind a prefix. *)
Fixpoint prefixed (prefix : string) (ls : list string) : string :=
  match ls with
  | [] => EmptyString
  | l :: rest => (prefix ++ l ++ prefixed prefix rest)%string
  end.

(** What the log receives for a text, given the value of [last] before
    it: the first line goes behind the prefix only at a line start. *)
Definition logged (prefix : string) (last0 : Z) (s : string) : string :=
  match lines s with
  | [] => EmptyString
  | l :: ls =>
      if last0 =? newline then prefixed prefix (l :: ls)
      else (l ++ prefixed prefix ls)%string
  end.

(** *** [Logger::start], lines 113-149, and [start_logger], line 418 *)

(** What [rdbuf()] of a stream can point to: a buffer from outside the
    Logger, or one of the two Tie members of the Logger. *)
Inductive StreamBuf : Type :=
| outside (id : Z)
| logger_in      (* &l.in *)
| logger_out.    (* &l.out *)

(** The [static Logger l]: the name of the file that is open, if one is,
    and the buffers that the constructor saved in [in.buf] and [out.buf]. *)
Record Logger := {
  file : option string;
  in_buf : StreamBuf;
  out_buf : StreamBuf
}.

Record Streams := {
  cin_rdbuf : StreamBuf;
  cout_rdbuf : StreamBuf;
  (** [None] until the first call constructs the static object *)
  logger : option Logger;
  cerr_text : string
}.

Inductive StartOutcome : Type :=
| start_returned (s : Streams)
| start_exited (status : Z) (s : Streams).

Definition is_open (l : Logger) : bool :=
  match file l with Some _ => true | None => false end.

Section Logger.

(** Whether the file system lets a file of this name be opened for
    writing. *)
Variable can_open : string -> bool.

Definition Logger_start (fname : string) (s : Streams) : StartOutcome :=
  (* static Logger l; *)
  let l := match logger s with
           | Some l => l
           | None => {| file := None; in_buf := cin_rdbuf s;
                        out_buf := cout_rdbuf s |}
           end in
  let s := {| cin_rdbuf := cin_rdbuf s; cout_rdbuf := cout_rdbuf s;
              logger := Some l; cerr_text := cerr_text s |} in
  let s :=
    if is_open l then
      {| cin_rdbuf := in_buf l; cout_rdbuf := out_buf l;
         logger := Some {| file := None; in_buf := in_buf l;
                           out_buf := out_buf l |};
         cerr_text := cerr_text s |}
    else s in
  if negb (String.eqb fname EmptyString) then
    if negb (can_open fname) then
      start_exited EXIT_FAILURE
        {| cin_rdbuf := cin_rdbuf s; cout_rdbuf := cout_rdbuf s;
           logger := logger s;
           cerr_text := (cerr_text s ++ "Unable to open debug log file "
                         ++ fname ++ endl)%string |}
    else
      start_returned
        {| cin_rdbuf := logger_in; cout_rdbuf := logger_out;
           logger := Some {| file := Some fname; in_buf := in_buf l;
                             out_buf := out_buf l |};
           cerr_text := cerr_text s |}
  else start_returned s.

Definition start_logger (fname : string) (s : Streams) : StartOutcome :=
  Logger_start fname s.

End Logger.

(** While a log file is open the streams are tied to the Logger; while none
    is, they are on the buffers the Logger saved. *)
Definition consistent (s : Streams) : Prop :=
  match logger s with
  | None => True
  | Some l =>
      if is_open l
      then cin_rdbuf s = logger_in /\ cout_rdbuf s = logger_out
      else cin_rdbuf s = in_buf l /\ cout_rdbuf s = out_buf l
  end.

(** The buffers the streams had before the Logger touched them. *)
Definition original_buffers (s : Streams) : StreamBuf * StreamBuf :=
  match logger s with
  | None => (cin_rdbuf s, cout_rdbuf s)
  | Some l => (in_buf l, out_buf l)
  end.

Definition logging_to (s : Streams) : option string :=
  match logger s with
  | None => None
  | Some l => file l
  end.

(** ** Sample inputs for the rest of misc.cpp *)

(** A C runtime whose working directory is /opt/pikafish. *)
Definition sample_crt : CRT :=
  {| crt_getcwd := fun _ => Some "/opt/pikafish"%string;
     crt__get_pgmptr := (0, Some "C:\engines\pikafish.exe"%string) |}.

(** Tied streams at a line start, with [input] waiting on std::cin, an
    output buffer that takes 64 characters and a log that takes
    [log_room]. *)
Definition sample_tie (input : string) (cout_room log_room : nat)
  : Tie.State :=
  {| Tie.cin_buffer := {| pending := input |};
     Tie.cout_buffer := {| written := EmptyString; room := cout_room |};
     Tie.log_buffer := {| written := EmptyString; room := log_room |};
     Tie.last := newline |}.

(** The streams of a process before the first call of [start_logger]. *)
Definition sample_streams : Streams :=
  {| cin_rdbuf := outside 0; cout_rdbuf := outside 1; logger := None;
     cerr_text := EmptyString |}.

(** * Properties *)

(** ** The fields of the world that the bookkeeping leaves alone *)

Lemma token_privileges_add_block (p size : Z) (w : World) :
  token_privileges (add_block p size w) = token_privileges w.
Proof. unfold add_block. destruct (p =? nullptr); reflexivity. Qed.

Lemma open_handles_add_block (p size : Z) (w : World) :
  open_handles (add_block p size w) = open_handles w.
Proof. unfold add_block. destruct (p =? nullptr); reflexivity. Qed.

Lemma last_error_add_block (p size : Z) (w : World) :
  last_error (add_block p size w) = last_error w.
Proof. unfold add_block. destruct (p =? nullptr); reflexivity. Qed.

Lemma cerr_add_block (p size : Z) (w : World) :
  cerr (add_block p size w) = cerr w.
Proof. unfold add_block. destruct (p =? nullptr); reflexivity. Qed.

Lemma token_privileges_remove_block (p : Z) (w : World) :
  token_privileges (remove_block p w) = token_privileges w.
Proof. unfold remove_block. destruct (p =? nullptr); reflexivity. Qed.

Lemma open_handles_remove_block (p : Z) (w : World) :
  open_handles (remove_block p w) = open_handles w.
Proof. unfold remove_block. destruct (p =? nullptr); reflexivity. Qed.

Lemma last_error_remove_block (p : Z) (w : World) :
  last_error (remove_block p w) = last_error w.
Proof. unfold remove_block. destruct (p =? nullptr); reflexivity. Qed.

Lemma cerr_remove_block (p : Z) (w : World) :
  cerr (remove_block p w) = cerr w.
Proof. unfold remove_block. destruct (p =? nullptr); reflexivity. Qed.

Create Rewrite HintDb world.
#[local] Hint Rewrite token_privileges_add_block open_handles_add_block
  last_error_add_block cerr_add_block token_privileges_remove_block
  open_handles_remove_block last_error_remove_block cerr_remove_block
  : world.

(** ** The sample operating system restores a saved privilege state *)

Lemma set_attributes_undo (luid attrs : Z) (table : PrivilegeTable) :
  forall old table',
    set_attributes luid attrs table = Some (old, table') ->
    set_attributes luid old table' = Some (attrs, table).
Proof.
  induction table as [|e rest IH]; simpl; intros old table' H.
  - discriminate H.
  - destruct (Luid e =? luid) eqn:E.
    + injection H as <- <-. simpl. rewrite Z.eqb_refl.
      apply Z.eqb_eq in E. destruct e as [l a]; simpl in *. subst l.
      reflexivity.
    + destruct (set_attributes luid attrs rest) as [[old' rest']|] eqn:R;
        [|discriminate H].
      injection H as <- <-. simpl. rewrite E.
      rewrite (IH _ _ eq_refl). reflexivity.
Qed.

Lemma sample_os_restores_saved_state : restores_saved_state sample_os.
Proof.
  unfold restores_saved_state. intros token newState len table. simpl.
  unfold sample_AdjustTokenPrivileges.
  destruct (PrivilegeCount newState =? 0) eqn:C; simpl; [reflexivity|].
  destruct (set_attributes _ _ table) as [[old table']|] eqn:S; simpl.
  - intros _ _. rewrite (set_attributes_undo _ _ _ _ _ S). reflexivity.
  - intros _ H. discriminate H.
Qed.

(** ** Proof tools *)

Ltac unfold_calls :=
  unfold GetLargePageMinimum, GetModuleHandle, LoadLibrary, GetProcAddress,
    OpenProcessToken, LookupPrivilegeValue, AdjustTokenPrivileges,
    GetLastError, VirtualAlloc, VirtualFree, CloseHandle, posix_memalign,
    _mm_malloc, _aligned_malloc, aligned_alloc, free, _mm_free,
    _aligned_free, madvise, cerr_write, exit, bind, call, ret in *.

(** Follow the program along one execution path: split on the next test or
    oracle answer the outcome depends on. *)
Ltac next_branch :=
  match goal with
  | |- context [if ?b then _ else _] =>
      lazymatch b with
      | context [match _ with _ => _ end] => fail
      | _ => destruct b eqn:?
      end
  | |- context [let '(_, _) := ?p in _] =>
      lazymatch p with
      | context [match _ with _ => _ end] => fail
      | _ => destruct p eqn:?
      end
  end.

Ltac all_paths :=
  repeat (cbn -[Z.eqb Z.lor Z.land remove filter add_block remove_block];
          autorewrite with world; rewrite ?Z.eqb_refl;
          try (next_branch; try (exfalso; cbn [negb] in *; congruence)));
  unfold id in *.

Lemma cons_eq_app {A : Type} (x : A) (l pre : list A) (c : A) (post : list A) :
  x :: l = pre ++ c :: post ->
  (pre = [] /\ x = c /\ l = post)
  \/ (exists pre', pre = x :: pre' /\ l = pre' ++ c :: post).
Proof.
  destruct pre as [|y pre']; simpl; intros H; inversion H; subst.
  - left. auto.
  - right. exists pre'. auto.
Qed.

(** Enumerate the positions at which [c] can sit in a concrete trace. *)
Ltac split_trace H tac :=
  lazymatch type of H with
  | [] = _ => exfalso; exact (app_cons_not_nil _ _ _ H)
  | _ :: _ = _ =>
      apply cons_eq_app in H;
      destruct H as [(? & ? & ?) | (? & ? & H)];
      [ subst; tac | subst; split_trace H tac ]
  end.

(** Replace the oracle answers in the goal by what they are on this path. *)
Ltac path_facts :=
  repeat match goal with
         | E : (_ =? _) = true |- _ => apply Z.eqb_eq in E
         end;
  repeat match goal with
         | E : adj_ok _ = _ |- _ => rewrite E in *; clear E
         | E : adj_error _ = _ |- _ => rewrite E in *; clear E
         end.

(** Close a path on which two recorded answers disagree. *)
Ltac contradictory_path :=
  exfalso;
  repeat match goal with
         | E : (_ =? _) = false |- _ => apply Z.eqb_neq in E
         end;
  congruence.

(** Give the prefix of a concrete trace before its last calls. *)
Ltac give_prefix tac :=
  first [ exists []; tac
        | eexists [_]; tac
        | eexists [_; _]; tac
        | eexists [_; _; _]; tac
        | eexists [_; _; _; _]; tac
        | eexists [_; _; _; _; _]; tac
        | eexists [_; _; _; _; _; _]; tac
        | eexists [_; _; _; _; _; _; _]; tac
        | eexists [_; _; _; _; _; _; _; _]; tac
        | eexists [_; _; _; _; _; _; _; _; _]; tac
        | eexists [_; _; _; _; _; _; _; _; _; _]; tac ].

Section HelperProperties.

Variable pf : Platform.
Variable os : OS.


End HelperProperties.

Section WindowsHelper.

Variable pf : Platform.
Variable os : OS.

(** C5. The large-page helper never terminates the process, and whenever the
    operating system reports a failure during the privilege negotiation
    (GetLargePageMinimum returns 0, one of the three advapi32 entry points
    does not resolve, OpenProcessToken fails, the privilege lookup fails,
    the enabling AdjustTokenPrivileges fails, or GetLastError is not
    ERROR_SUCCESS after it) the helper returns null. *)
Theorem negotiation_failure_returns_null (allocSize : Z) (w : World) :
  let o := aligned_large_pages_alloc_windows pf os allocSize w in
  exit_status o = None
  /\ (existsb negotiation_failure (trace o) = true -> value o = Some nullptr).
Proof.
  unfold aligned_large_pages_alloc_windows. unfold_calls.
  all_paths; split; try reflexivity;
    unfold id in *; cbn -[Z.eqb Z.lor Z.land];
    repeat match goal with
           | E : _ = false |- _ => rewrite E
           | E : _ = true |- _ => rewrite E
           end;
    cbn; intros H; first [reflexivity | discriminate H].
Qed.

(** C7. Whenever OpenProcessToken succeeded, the helper returns, the last
    call it makes before returning is CloseHandle on the token handle it
    was given, and that handle is not open any more when it returns;
    whatever the privilege lookup, the adjustment and the allocation did. *)
Theorem token_handle_closed_on_every_path (allocSize : Z) (w : World)
    (pre : list Call) (process access token : Z) (post : list Call) :
  let o := aligned_large_pages_alloc_windows pf os allocSize w in
  trace o = pre ++ OpenProcessToken_call process access true token :: post ->
  (exists mem, value o = Some mem)
  /\ (exists mid, post = mid ++ [CloseHandle_call token])
  /\ ~ In token (open_handles (world_of o)).
Proof.
  unfold aligned_large_pages_alloc_windows. unfold_calls.
  all_paths; intros H;
    split_trace H ltac:(
      try match goal with
          | E : _ = OpenProcessToken_call _ _ _ _ |- _ =>
              first [ discriminate E | inversion E; subst ]
          end);
    (split;
      [ eexists; reflexivity
      | split; [ give_prefix ltac:(reflexivity) | apply remove_In ] ]).
Qed.

End WindowsHelper.

Lemma negotiation_failure_returns_null_witness :
  existsb negotiation_failure
    (trace (aligned_large_pages_alloc_windows windows_x64 sample_os_denied
              1 sample_world)) = true
  /\ value (aligned_large_pages_alloc_windows windows_x64 sample_os_denied
              1 sample_world) = Some nullptr.
Proof.
  split.
  - vm_compute. reflexivity.
  - apply (proj2 (negotiation_failure_returns_null windows_x64
                    sample_os_denied 1 sample_world)).
    vm_compute. reflexivity.
Defined.

Lemma token_handle_closed_on_every_path_witness :
  let o := aligned_large_pages_alloc_windows windows_x64 sample_os 1
             sample_world in
  trace o
  = firstn 5 (trace o)
    ++ OpenProcessToken_call CurrentProcess 40 true 0x1f4
    :: skipn 6 (trace o)
  /\ ((exists mem, value o = Some mem)
      /\ (exists mid, skipn 6 (trace o) = mid ++ [CloseHandle_call 0x1f4])
      /\ ~ In 0x1f4 (open_handles (world_of o))).
Proof.
  split.
  - vm_compute. reflexivity.
  - apply (token_handle_closed_on_every_path windows_x64 sample_os 1
             sample_world
             (firstn 5 (trace (aligned_large_pages_alloc_windows windows_x64
                                 sample_os 1 sample_world)))
             CurrentProcess 40 0x1f4).
    vm_compute. reflexivity.
Defined.

Section LargePages.

Variable pf : Platform.
Variable os : OS.

(** C6. In every run of [aligned_large_pages_alloc], a VirtualAlloc call
    that carries MEM_LARGE_PAGES comes immediately after the three calls
    that confirm the lock-memory privilege: the successful lookup of
    SeLockMemoryPrivilege, the AdjustTokenPrivileges call that enables it
    and returned TRUE, and GetLastError returning ERROR_SUCCESS. *)
Theorem large_page_alloc_only_after_privilege (allocSize : Z) (w : World)
    (pre : list Call) (c : Call) (post : list Call) :
  trace (aligned_large_pages_alloc pf os allocSize w) = pre ++ c :: post ->
  is_large_page_alloc c = true ->
  exists pre' luid token previous,
    pre = pre' ++ privilege_confirmed luid token previous.
Proof.
  unfold aligned_large_pages_alloc, aligned_large_pages_alloc_windows,
    std_aligned_alloc.
  unfold_calls.
  all_paths; intros H Hc;
    split_trace H ltac:(cbn in Hc; try discriminate Hc);
    path_facts; unfold privilege_confirmed, enable_request;
    give_prefix ltac:(do 3 eexists; reflexivity).
Qed.

(** C10. Whenever the lock-memory privilege has been confirmed enabled, the
    next calls are the large-page VirtualAlloc, then, whatever it returned,
    AdjustTokenPrivileges on the same token with the previous state that
    the enabling call saved, then CloseHandle; and on an operating system
    whose AdjustTokenPrivileges restores a saved state, the privileges of
    the process token are the same after [aligned_large_pages_alloc] as
    before it. *)
Theorem privilege_state_restored (allocSize : Z) (w : World)
    (pre : list Call) (luid token : Z) (previous : TOKEN_PRIVILEGES)
    (post : list Call) :
  let o := aligned_large_pages_alloc pf os allocSize w in
  trace o = pre ++ privilege_confirmed luid token previous ++ post ->
  (exists size mem ok ignored rest,
     post = VirtualAlloc_call nullptr size
              (Z.lor (Z.lor MEM_RESERVE MEM_COMMIT) MEM_LARGE_PAGES)
              PAGE_READWRITE mem
            :: AdjustTokenPrivileges_call token false previous 0 false ok
                 ignored
            :: CloseHandle_call token :: rest)
  /\ (restores_saved_state os ->
      token_privileges (world_of o) = token_privileges w).
Proof.
  unfold aligned_large_pages_alloc, aligned_large_pages_alloc_windows,
    std_aligned_alloc, privilege_confirmed, enable_request.
  unfold_calls.
  all_paths; cbn [app]; intros H;
    split_trace H ltac:(
      try match goal with
          | E : _ = LookupPrivilegeValue_call _ _ _ _ |- _ =>
              first [ discriminate E | inversion E; subst ]
          end;
      try match goal with
          | E : _ = AdjustTokenPrivileges_call _ _ _ _ _ _ _ :: _ |- _ =>
              first [ discriminate E | inversion E; subst ]
          end);
    try contradictory_path;
    (split;
      [ do 5 eexists; reflexivity
      | intros Hos; cbn; autorewrite with world; cbn;
        apply Hos; assumption ]).
Qed.

End LargePages.

Lemma large_page_alloc_only_after_privilege_witness :
  let o := aligned_large_pages_alloc windows_x64 sample_os 1 sample_world in
  (trace o
   = firstn 9 (trace o)
     ++ VirtualAlloc_call nullptr 2097152
          (Z.lor (Z.lor MEM_RESERVE MEM_COMMIT) MEM_LARGE_PAGES)
          PAGE_READWRITE 0x40000000
     :: skipn 10 (trace o))
  /\ exists pre' luid token previous,
       firstn 9 (trace o) = pre' ++ privilege_confirmed luid token previous.
Proof.
  split.
  - vm_compute. reflexivity.
  - apply (large_page_alloc_only_after_privilege windows_x64 sample_os 1
             sample_world
             (firstn 9 (trace (aligned_large_pages_alloc windows_x64
                                 sample_os 1 sample_world)))
             (VirtualAlloc_call nullptr 2097152
                (Z.lor (Z.lor MEM_RESERVE MEM_COMMIT) MEM_LARGE_PAGES)
                PAGE_READWRITE 0x40000000)
             (skipn 10 (trace (aligned_large_pages_alloc windows_x64
                                 sample_os 1 sample_world)))).
    + vm_compute. reflexivity.
    + vm_compute. reflexivity.
Defined.

Lemma privilege_state_restored_witness :
  let o := aligned_large_pages_alloc windows_x64 sample_os 1 sample_world in
  let saved := {| PrivilegeCount := 1;
                  Privileges0 := {| Luid := 4; Attributes := 0 |} |} in
  (trace o
   = firstn 6 (trace o) ++ privilege_confirmed 4 0x1f4 saved
     ++ skipn 9 (trace o))
  /\ restores_saved_state sample_os
  /\ (exists size mem ok ignored rest,
        skipn 9 (trace o)
        = VirtualAlloc_call nullptr size
            (Z.lor (Z.lor MEM_RESERVE MEM_COMMIT) MEM_LARGE_PAGES)
            PAGE_READWRITE mem
          :: AdjustTokenPrivileges_call 0x1f4 false saved 0 false ok ignored
          :: CloseHandle_call 0x1f4 :: rest)
  /\ token_privileges (world_of o) = token_privileges sample_world.
Proof.
  pose proof (privilege_state_restored windows_x64 sample_os 1 sample_world
                (firstn 6 (trace (aligned_large_pages_alloc windows_x64
                                    sample_os 1 sample_world)))
                4 0x1f4
                {| PrivilegeCount := 1;
                   Privileges0 := {| Luid := 4; Attributes := 0 |} |}
                (skipn 9 (trace (aligned_large_pages_alloc windows_x64
                                   sample_os 1 sample_world)))) as P.
  cbv zeta in *.
  split; [vm_compute; reflexivity|].
  split; [exact sample_os_restores_saved_state|].
  split.
  - apply P. vm_compute. reflexivity.
  - apply P.
    + vm_compute. reflexivity.
    + exact sample_os_restores_saved_state.
Defined.

Section AlignedAllocator.

Variable pf : Platform.
Variable os : OS.

Lemma heap_add_block (p size : Z) (w : World) :
  p <> nullptr -> heap (add_block p size w) = (p, size) :: heap w.
Proof.
  intros H. unfold add_block. destruct (p =? nullptr) eqn:E.
  - apply Z.eqb_eq in E. contradiction.
  - reflexivity.
Qed.

(** C3. For an alignment that is a power of two and a multiple of the
    pointer size, on a runtime whose aligned allocators return multiples of
    the alignment they are given, [std_aligned_alloc] returns (it never
    stops the process), and what it returns is null or a multiple of
    [alignment] that is the base of a live block of [size] bytes; on every
    build configuration. *)
Theorem std_aligned_alloc_contract (a size : Z) (w : World) :
  valid_alignment pf a = true ->
  aligned_backends pf os ->
  exists p w' t,
    std_aligned_alloc pf os a size w = Returned p w' t
    /\ (p = nullptr \/ (p mod a = 0 /\ In (p, size) (heap w'))).
Proof.
  intros Ha Hos. destruct (Hos a size Ha) as (Hposix & Hmm & Hal & Hstd).
  unfold std_aligned_alloc. unfold_calls.
  destruct (POSIXALIGNEDALLOC pf);
    [| destruct (_WIN32 pf && negb (_M_ARM pf) && negb (_M_ARM64 pf));
       [| destruct (_WIN32 pf)] ].
  - destruct (os_posix_memalign os a size) as [rc mem] eqn:E. simpl in *.
    do 3 eexists. split; [reflexivity|].
    destruct (rc =? 0) eqn:R; simpl; [|left; reflexivity].
    apply Z.eqb_eq in R.
    destruct (Z.eq_dec mem nullptr) as [->|N]; [left; reflexivity|].
    right. split; [auto|]. rewrite heap_add_block by assumption. left.
    reflexivity.
  - do 3 eexists. split; [reflexivity|].
    destruct (Z.eq_dec (os__mm_malloc os size a) nullptr) as [->|N];
      [left; reflexivity|].
    right. split; [assumption|]. rewrite heap_add_block by assumption.
    left. reflexivity.
  - do 3 eexists. split; [reflexivity|].
    destruct (Z.eq_dec (os__aligned_malloc os size a) nullptr) as [->|N];
      [left; reflexivity|].
    right. split; [assumption|]. rewrite heap_add_block by assumption.
    left. reflexivity.
  - do 3 eexists. split; [reflexivity|].
    destruct (Z.eq_dec (os_aligned_alloc os a size) nullptr) as [->|N];
      [left; reflexivity|].
    right. split; [assumption|]. rewrite heap_add_block by assumption.
    left. reflexivity.
Qed.

Lemma std_aligned_alloc_returns (a size : Z) (w : World) :
  exists p w' t, std_aligned_alloc pf os a size w = Returned p w' t.
Proof.
  unfold std_aligned_alloc. unfold_calls.
  all_paths; eauto.
Qed.

End AlignedAllocator.

(** ** The rounding of the requested size *)

Lemma round_up_quotient (s g : Z) :
  0 < g -> 0 <= s -> (s + g - 1) / g = ceil_div s g.
Proof.
  intros Hg Hs. unfold ceil_div.
  pose proof (Z.div_mod s g ltac:(lia)) as D.
  pose proof (Z.mod_pos_bound s g Hg) as B.
  symmetry. destruct (s mod g =? 0) eqn:E.
  - apply Z.eqb_eq in E.
    apply (Z.div_unique (s + g - 1) g (s / g + 0) (g - 1)); lia.
  - apply Z.eqb_neq in E.
    apply (Z.div_unique (s + g - 1) g (s / g + 1) (s mod g - 1)); lia.
Qed.

Lemma spec_roundedSize_bounds (s g : Z) :
  0 < g -> 0 <= s ->
  s <= spec_roundedSize s g < s + g /\ spec_roundedSize s g mod g = 0.
Proof.
  intros Hg Hs. unfold spec_roundedSize, ceil_div.
  pose proof (Z.div_mod s g ltac:(lia)) as D.
  pose proof (Z.mod_pos_bound s g Hg) as B.
  split; [|apply Z.mod_mul; lia].
  destruct (s mod g =? 0) eqn:E.
  - apply Z.eqb_eq in E. nia.
  - apply Z.eqb_neq in E. nia.
Qed.

Lemma wrap_small (bits x : Z) : 0 <= x < 2 ^ bits -> wrap bits x = x.
Proof. intros H. unfold wrap. apply Z.mod_small. exact H. Qed.

Lemma wrap_add_sub (bits a b : Z) :
  0 < bits -> 0 <= a + b - 1 < 2 ^ bits ->
  size_sub bits (size_add bits a b) 1 = a + b - 1.
Proof.
  intros Hb H. unfold size_sub, size_add, wrap.
  rewrite Zminus_mod_idemp_l. apply Z.mod_small. exact H.
Qed.

Lemma alignment_pos (pf : Platform) : 0 < alignment pf.
Proof. unfold alignment. destruct (__linux__ pf); lia. Qed.

Lemma size_t_bits_pos (pf : Platform) : 0 < size_t_bits pf.
Proof.
  unfold size_t_bits.
  destruct (_WIN32 pf), (_WIN64 pf), (__LP64__ pf); lia.
Qed.

Lemma round_up_to_alignment_spec (pf : Platform) (s : Z) :
  0 <= s -> s + alignment pf - 1 < 2 ^ size_t_bits pf ->
  round_up_to_alignment pf s = spec_roundedSize s (alignment pf).
Proof.
  intros Hs Hw. pose proof (alignment_pos pf) as Hg.
  unfold round_up_to_alignment. cbv zeta.
  rewrite wrap_add_sub by (try apply size_t_bits_pos; lia).
  unfold size_div, size_mul. rewrite round_up_quotient by lia.
  fold (spec_roundedSize s (alignment pf)).
  apply wrap_small.
  pose proof (spec_roundedSize_bounds s (alignment pf) Hg Hs). lia.
Qed.

Lemma power_of_two_log2 (a : Z) :
  is_power_of_two a = true -> a = 2 ^ Z.log2 a /\ 0 <= Z.log2 a.
Proof.
  unfold is_power_of_two. intros H. apply andb_true_iff in H.
  destruct H as [Hpos Hland]. apply Z.ltb_lt in Hpos.
  apply Z.eqb_eq in Hland.
  pose proof (Z.log2_nonneg a) as Hk. split; [|exact Hk].
  pose proof (Z.log2_spec a Hpos) as [Hlo Hhi].
  destruct (Z.eq_dec a (2 ^ Z.log2 a)) as [E|N]; [exact E|exfalso].
  assert (L : Z.log2 (a - 1) = Z.log2 a).
  { apply Z.log2_unique; [exact Hk|]. lia. }
  assert (B1 : Z.testbit a (Z.log2 a) = true) by (apply Z.bit_log2; lia).
  assert (B2 : Z.testbit (a - 1) (Z.log2 a) = true).
  { rewrite <- L. apply Z.bit_log2.
    pose proof (Z.pow_pos_nonneg 2 (Z.log2 a) ltac:(lia) Hk). lia. }
  assert (B : Z.testbit (Z.land a (a - 1)) (Z.log2 a) = true).
  { rewrite Z.land_spec, B1, B2. reflexivity. }
  rewrite Hland, Z.bits_0 in B. discriminate B.
Qed.

Lemma land_wrap_r (bits x y : Z) :
  0 <= bits -> 0 <= x < 2 ^ bits -> Z.land x (wrap bits y) = Z.land x y.
Proof.
  intros Hb Hx. unfold wrap. rewrite <- Z.land_ones by exact Hb.
  rewrite (Z.land_comm y), Z.land_assoc, Z.land_ones by exact Hb.
  rewrite Z.mod_small by exact Hx. reflexivity.
Qed.

Lemma round_up_to_large_page_spec (s lps : Z) :
  is_power_of_two lps = true ->
  0 <= s -> s + lps - 1 < 2 ^ 64 ->
  round_up_to_large_page s lps = spec_roundedSize s lps.
Proof.
  intros Hp Hs Hw. destruct (power_of_two_log2 lps Hp) as [E Hk].
  assert (Hg : 0 < lps).
  { unfold is_power_of_two in Hp. apply andb_true_iff in Hp.
    destruct Hp as [Hp _]. apply Z.ltb_lt in Hp. exact Hp. }
  unfold round_up_to_large_page, size_and, size_not.
  rewrite wrap_add_sub by lia.
  assert (Hl : size_sub 64 lps 1 = lps - 1).
  { unfold size_sub. apply wrap_small. lia. }
  rewrite Hl, land_wrap_r by lia.
  rewrite <- Z.ldiff_land.
  replace (lps - 1) with (Z.ones (Z.log2 lps))
    by (rewrite Z.ones_equiv; lia).
  rewrite Z.ldiff_ones_r by exact Hk.
  rewrite Z.shiftr_div_pow2, Z.shiftl_mul_pow2 by exact Hk.
  rewrite <- E. rewrite round_up_quotient by lia. reflexivity.
Qed.

Example ten_MiB_is_already_rounded :
  spec_roundedSize (10 * 1024 * 1024) (2 * 1024 * 1024) = 10 * 1024 * 1024.
Proof. reflexivity. Qed.

(** ** Allocation and release *)

Lemma count_newlines_app (a b : string) :
  count_newlines (a ++ b) = (count_newlines a + count_newlines b)%nat.
Proof.
  induction a as [|c a IH]; simpl; [reflexivity|]. rewrite IH. lia.
Qed.

Lemma count_newlines_hex_digits (d : Hexadecimal.uint) :
  count_newlines (NilEmpty.string_of_uint d) = 0%nat.
Proof. induction d; simpl; auto. Qed.

Lemma count_newlines_hex (n : Z) : count_newlines (hex n) = 0%nat.
Proof.
  unfold hex, NilZero.string_of_uint.
  destruct (N.to_hex_uint (Z.to_N n)) eqn:E;
    try reflexivity; rewrite <- E; apply count_newlines_hex_digits.
Qed.

Section Allocation.

Variable pf : Platform.
Variable os : OS.


(** C9. On a Windows build without _WIN64 the large-page helper returns
    null without calling the operating system, and the only call
    [aligned_large_pages_alloc] makes is the regular VirtualAlloc: no
    advisory.  On a build that is not Windows it makes the regular aligned
    allocation and then, exactly when the headers define MADV_HUGEPAGE, one
    madvise(mem, size, MADV_HUGEPAGE) on what the allocation returned. *)
Theorem fallback_asymmetry (allocSize : Z) (w : World) :
  (_WIN32 pf = true -> _WIN64 pf = false ->
   aligned_large_pages_alloc_windows pf os allocSize w
   = Returned nullptr w []
   /\ trace (aligned_large_pages_alloc pf os allocSize w)
      = [VirtualAlloc_call nullptr allocSize (Z.lor MEM_RESERVE MEM_COMMIT)
           PAGE_READWRITE
           (os_VirtualAlloc os nullptr allocSize
              (Z.lor MEM_RESERVE MEM_COMMIT) PAGE_READWRITE)])
  /\ (_WIN32 pf = false ->
      let size := round_up_to_alignment pf allocSize in
      exists mem w' t,
        std_aligned_alloc pf os (alignment pf) size w = Returned mem w' t
        /\ aligned_large_pages_alloc pf os allocSize w
           = Returned mem w'
               (t ++ if defined_MADV_HUGEPAGE pf
                     then [madvise_call mem size MADV_HUGEPAGE]
                     else [])).
Proof.
  split.
  - intros W32 W64. unfold aligned_large_pages_alloc,
      aligned_large_pages_alloc_windows.
    rewrite W32, W64. split; reflexivity.
  - intros W32. cbv zeta.
    destruct (std_aligned_alloc_returns pf os (alignment pf)
                (round_up_to_alignment pf allocSize) w) as (m & w1 & t1 & E).
    exists m, w1, t1. split; [exact E|].
    unfold aligned_large_pages_alloc. rewrite W32. cbv zeta.
    unfold bind at 1. rewrite E. unfold_calls.
    destruct (defined_MADV_HUGEPAGE pf); cbn; [reflexivity|].
    reflexivity.
Qed.

(** C8. Releasing the null pointer with [std_aligned_free] or with
    [aligned_large_pages_free] returns and leaves the world as it was (the
    heap and what was written to std::cerr included), on every build
    configuration; on Windows [aligned_large_pages_free] does not even call
    the operating system. *)
Theorem free_nullptr_is_no_op (w : World) :
  (exists t, std_aligned_free pf nullptr w = Returned tt w t)
  /\ (exists t, aligned_large_pages_free pf os nullptr w = Returned tt w t)
  /\ (_WIN32 pf = true ->
      aligned_large_pages_free pf os nullptr w = Returned tt w []).
Proof.
  assert (F : exists t, std_aligned_free pf nullptr w = Returned tt w t).
  { unfold std_aligned_free. unfold_calls.
    destruct (POSIXALIGNEDALLOC pf);
      [| destruct (_WIN32 pf && negb (_M_ARM pf) && negb (_M_ARM64 pf));
         [| destruct (_WIN32 pf)] ];
      eexists; reflexivity. }
  split; [exact F|].
  unfold aligned_large_pages_free.
  destruct (_WIN32 pf).
  - split; [eexists|intros _]; reflexivity.
  - split; [exact F|discriminate].
Qed.

(** C2. On Windows, when VirtualFree reports an error for a pointer that is
    not null, [aligned_large_pages_free] reads the error code, writes one
    line to std::cerr (the text, the code in hexadecimal, std::endl) and
    stops the process with EXIT_FAILURE, which is not zero.  Off Windows
    [aligned_large_pages_free] is [std_aligned_free]: for every pointer it
    may be given, the null pointer or the base of a live block, it returns
    and writes nothing. *)
Theorem release_failure_is_fatal (mem : Z) (w : World) :
  (_WIN32 pf = true ->
   mem <> nullptr ->
   forall err, os_VirtualFree os mem 0 MEM_RELEASE = (false, err) ->
   let message :=
     ("Failed to free large page memory. Error code: 0x" ++ hex err)%string in
   exists w',
     aligned_large_pages_free pf os mem w
     = Exited EXIT_FAILURE w'
         [VirtualFree_call mem 0 MEM_RELEASE false; GetLastError_call err;
          exit_call EXIT_FAILURE]
     /\ EXIT_FAILURE <> 0
     /\ cerr w' = (cerr w ++ message ++ endl)%string
     /\ count_newlines (message ++ endl) = 1%nat)
  /\ (_WIN32 pf = false ->
      releasable mem w = true ->
      aligned_large_pages_free pf os mem w = std_aligned_free pf mem w
      /\ exit_status (aligned_large_pages_free pf os mem w) = None
      /\ cerr (world_of (aligned_large_pages_free pf os mem w)) = cerr w).
Proof.
  split.
  - intros W N err E message. unfold aligned_large_pages_free. rewrite W.
    unfold_calls. apply Z.eqb_neq in N. rewrite N, E. cbn.
    eexists. split; [reflexivity|]. split; [discriminate|].
    split; [reflexivity|].
    unfold message.
    rewrite !count_newlines_app, count_newlines_hex. reflexivity.
  - intros W _. unfold aligned_large_pages_free. rewrite W.
    split; [reflexivity|].
    unfold std_aligned_free. unfold_calls.
    destruct (POSIXALIGNEDALLOC pf);
      [| destruct (_WIN32 pf && negb (_M_ARM pf) && negb (_M_ARM64 pf));
         [| destruct (_WIN32 pf)] ];
      cbn -[remove_block]; rewrite cerr_remove_block; auto.
Qed.

End Allocation.

Section Rounding.

Variable pf : Platform.
Variable os : OS.

Lemma std_aligned_alloc_block (a size : Z) (w : World) :
  exists p w' t,
    std_aligned_alloc pf os a size w = Returned p w' t
    /\ (p <> nullptr -> In (p, size) (heap w')).
Proof.
  unfold std_aligned_alloc. unfold_calls.
  all_paths; do 3 eexists; (split; [reflexivity|]); intros N;
    try (exfalso; apply N; reflexivity);
    cbn -[add_block]; rewrite heap_add_block by exact N; left; reflexivity.
Qed.

Lemma windows_alloc_sizes (s : Z) (w : World) :
  _WIN32 pf = true ->
  let lps := os_GetLargePageMinimum os in
  exists mem w' t,
    aligned_large_pages_alloc pf os s w = Returned mem w' t
    /\ (forall a size ty pr r,
          In (VirtualAlloc_call a size ty pr r) t ->
          (ty = Z.lor (Z.lor MEM_RESERVE MEM_COMMIT) MEM_LARGE_PAGES
           /\ size = round_up_to_large_page s lps /\ lps <> 0)
          \/ (ty = Z.lor MEM_RESERVE MEM_COMMIT /\ size = s))
    /\ (mem <> nullptr ->
        exists n, In (mem, n) (heap w')
                  /\ ((n = round_up_to_large_page s lps /\ lps <> 0)
                      \/ n = s)).
Proof.
  intros W. unfold aligned_large_pages_alloc. rewrite W.
  unfold aligned_large_pages_alloc_windows. unfold_calls.
  all_paths;
    repeat match goal with
           | E : (_ =? 0) = false |- _ => apply Z.eqb_neq in E
           end;
    do 3 eexists; (split; [reflexivity|]); (split;
    [ intros a size ty pr r HIn; cbn in HIn; intuition (try discriminate);
      match goal with
      | E : VirtualAlloc_call _ _ _ _ _ = VirtualAlloc_call _ _ _ _ _ |- _ =>
          injection E as <- <- <- <- <-
      end; auto
    | intros N; try (exfalso; apply N; reflexivity);
      eexists;
      (split;
        [ cbn -[add_block]; rewrite heap_add_block by exact N;
          left; reflexivity
        | auto ]) ]).
Qed.

(** C4, as amended.  For a requested size [s] for which adding the page
    granularity does not wrap around size_t: off Windows the size passed to
    the aligned allocation is ceil(s / g) * g, with g = 2 MiB on Linux and
    4096 elsewhere, it is at least [s], and a result that is not null is the
    base of a live block of that size.  On Windows, with g the (power of
    two) value of GetLargePageMinimum, the VirtualAlloc with MEM_LARGE_PAGES
    is sized ceil(s / g) * g while the regular VirtualAlloc of the fallback
    is sized [s] itself, and a result that is not null is the base of a live
    block of at least [s] bytes.  10 MiB on a granularity of 2 MiB rounds to
    10 MiB. *)
Theorem allocation_size_rounding (s : Z) (w : World) :
  0 <= s ->
  (_WIN32 pf = false ->
   s + alignment pf - 1 < 2 ^ size_t_bits pf ->
   let size := spec_roundedSize s (alignment pf) in
   alignment pf = (if __linux__ pf then 2 * 1024 * 1024 else 4096)
   /\ s <= size
   /\ exists mem w' t,
        aligned_large_pages_alloc pf os s w = Returned mem w' t
        /\ value (std_aligned_alloc pf os (alignment pf) size w) = Some mem
        /\ (mem <> nullptr -> In (mem, size) (heap w')))
  /\ (_WIN32 pf = true ->
      let lps := os_GetLargePageMinimum os in
      (lps <> 0 -> is_power_of_two lps = true /\ s + lps - 1 < 2 ^ 64) ->
      exists mem w' t,
        aligned_large_pages_alloc pf os s w = Returned mem w' t
        /\ (forall a size ty pr r,
              In (VirtualAlloc_call a size ty pr r) t ->
              (ty = Z.lor (Z.lor MEM_RESERVE MEM_COMMIT) MEM_LARGE_PAGES
               /\ size = spec_roundedSize s lps)
              \/ (ty = Z.lor MEM_RESERVE MEM_COMMIT /\ size = s))
        /\ (mem <> nullptr ->
            exists n, In (mem, n) (heap w') /\ s <= n))
  /\ spec_roundedSize (10 * 1024 * 1024) (2 * 1024 * 1024)
     = 10 * 1024 * 1024.
Proof.
  intros Hs. split; [|split; [|reflexivity]].
  - intros W Hw. cbv zeta.
    pose proof (alignment_pos pf) as Hg.
    split; [reflexivity|].
    split; [apply (spec_roundedSize_bounds s (alignment pf) Hg Hs)|].
    rewrite <- (round_up_to_alignment_spec pf s Hs Hw).
    destruct (std_aligned_alloc_block (alignment pf)
                (round_up_to_alignment pf s) w) as (m & w1 & t1 & E & B).
    unfold aligned_large_pages_alloc. rewrite W. cbv zeta.
    unfold bind at 1. rewrite E. unfold_calls.
    destruct (defined_MADV_HUGEPAGE pf); cbn;
      (do 3 eexists; split; [reflexivity|]; split; [reflexivity|exact B]).
  - intros W lps Hl.
    destruct (windows_alloc_sizes s w W) as (m & w1 & t1 & E & C & B).
    fold lps in C, B.
    exists m, w1, t1. split; [exact E|]. split.
    + intros a size ty pr r HIn.
      destruct (C a size ty pr r HIn) as [(-> & -> & Hn)|(-> & ->)];
        [left|right; auto].
      destruct (Hl Hn) as [Hp Hw].
      rewrite (round_up_to_large_page_spec s lps Hp Hs Hw). auto.
    + intros N. destruct (B N) as (n & HIn & [ (-> & Hn) | -> ]).
      * exists (round_up_to_large_page s lps). split; [exact HIn|].
        destruct (Hl Hn) as [Hp Hw].
        rewrite (round_up_to_large_page_spec s lps Hp Hs Hw).
        apply spec_roundedSize_bounds; [|exact Hs].
        unfold is_power_of_two in Hp. apply andb_true_iff in Hp.
        destruct Hp as [Hp _]. apply Z.ltb_lt in Hp. exact Hp.
      * exists s. split; [exact HIn|lia].
Qed.

End Rounding.

(** ** The properties on the sample systems *)

Lemma sample_os_aligned_backends (pf : Platform) : aligned_backends pf sample_os.
Proof.
  intros a size Ha. unfold valid_alignment, is_power_of_two in Ha.
  apply andb_true_iff in Ha. destruct Ha as [Ha _].
  apply andb_true_iff in Ha. destruct Ha as [Ha _].
  apply Z.ltb_lt in Ha. cbn -[Z.mul].
  repeat split; intros; apply Z.mod_mul; lia.
Qed.


Lemma release_failure_is_fatal_witness :
  exit_status (aligned_large_pages_free windows_x64 sample_os_denied 0x10000
                 sample_world) = Some EXIT_FAILURE
  /\ (let w := world_of (aligned_large_pages_alloc linux_x86_64 sample_os 1
                          sample_world) in
      releasable 0x2000000 w = true
      /\ exit_status (aligned_large_pages_free linux_x86_64 sample_os
                        0x2000000 w) = None).
Proof.
  split.
  - destruct (proj1 (release_failure_is_fatal windows_x64 sample_os_denied
                       0x10000 sample_world)
                eq_refl ltac:(discriminate) 487 eq_refl) as (w' & E & _).
    rewrite E. reflexivity.
  - assert (L : releasable 0x2000000
                  (world_of (aligned_large_pages_alloc linux_x86_64 sample_os
                               1 sample_world)) = true)
      by (vm_compute; reflexivity).
    split; [exact L|].
    apply (proj2 (release_failure_is_fatal linux_x86_64 sample_os 0x2000000
                    (world_of (aligned_large_pages_alloc linux_x86_64
                                 sample_os 1 sample_world)))
             eq_refl L).
Defined.

Lemma std_aligned_alloc_contract_witness :
  valid_alignment macos_arm64 64 = true
  /\ aligned_backends macos_arm64 sample_os
  /\ exists p w' t,
       std_aligned_alloc macos_arm64 sample_os 64 1 sample_world
       = Returned p w' t
       /\ (p = nullptr \/ (p mod 64 = 0 /\ In (p, 1) (heap w'))).
Proof.
  split; [reflexivity|]. split; [apply sample_os_aligned_backends|].
  apply (std_aligned_alloc_contract macos_arm64 sample_os 64 1 sample_world).
  - reflexivity.
  - apply sample_os_aligned_backends.
Defined.

Lemma free_nullptr_is_no_op_witness :
  _WIN32 windows_x64 = true
  /\ aligned_large_pages_free windows_x64 sample_os_denied nullptr
       sample_world = Returned tt sample_world [].
Proof.
  split; [reflexivity|].
  apply (proj2 (proj2 (free_nullptr_is_no_op windows_x64 sample_os_denied
                         sample_world))).
  reflexivity.
Defined.

Lemma fallback_asymmetry_witness :
  (_WIN32 windows_x86 = true /\ _WIN64 windows_x86 = false
   /\ trace (aligned_large_pages_alloc windows_x86 sample_os 1 sample_world)
      = [VirtualAlloc_call nullptr 1 (Z.lor MEM_RESERVE MEM_COMMIT)
           PAGE_READWRITE 0x10000])
  /\ (_WIN32 linux_x86_64 = false
      /\ trace (aligned_large_pages_alloc linux_x86_64 sample_os 1
                  sample_world)
         = [aligned_alloc_call 2097152 2097152 33554432;
            madvise_call 33554432 2097152 MADV_HUGEPAGE]).
Proof.
  split.
  - split; [reflexivity|]. split; [reflexivity|].
    apply (proj1 (fallback_asymmetry windows_x86 sample_os 1 sample_world)
             eq_refl eq_refl).
  - split; [reflexivity|].
    destruct (proj2 (fallback_asymmetry linux_x86_64 sample_os 1
                       sample_world) eq_refl) as (mem & w' & t & E1 & E2).
    rewrite E2. vm_compute in E1. injection E1 as <- <- <-. reflexivity.
Defined.

Lemma allocation_size_rounding_witness :
  0 <= 10 * 1024 * 1024
  /\ 10 * 1024 * 1024 + alignment linux_x86_64 - 1
     < 2 ^ size_t_bits linux_x86_64
  /\ 10 * 1024 * 1024
     <= spec_roundedSize (10 * 1024 * 1024) (alignment linux_x86_64)
  /\ (os_GetLargePageMinimum sample_os <> 0 ->
      is_power_of_two (os_GetLargePageMinimum sample_os) = true
      /\ 10 * 1024 * 1024 + os_GetLargePageMinimum sample_os - 1 < 2 ^ 64)
  /\ exists mem w' t,
       aligned_large_pages_alloc windows_x64 sample_os (10 * 1024 * 1024)
         sample_world = Returned mem w' t
       /\ (mem <> nullptr ->
           exists n, In (mem, n) (heap w') /\ 10 * 1024 * 1024 <= n).
Proof.
  pose proof (allocation_size_rounding linux_x86_64 sample_os
                (10 * 1024 * 1024) sample_world ltac:(lia)) as (L & _ & _).
  pose proof (allocation_size_rounding windows_x64 sample_os
                (10 * 1024 * 1024) sample_world ltac:(lia)) as (_ & W & _).
  assert (G : os_GetLargePageMinimum sample_os <> 0 ->
              is_power_of_two (os_GetLargePageMinimum sample_os) = true
              /\ 10 * 1024 * 1024 + os_GetLargePageMinimum sample_os - 1
                 < 2 ^ 64).
  { intros _. split; [reflexivity|]. vm_compute. reflexivity. }
  split; [lia|]. split; [vm_compute; reflexivity|].
  split; [apply (L eq_refl); vm_compute; reflexivity|].
  split; [exact G|].
  destruct (W eq_refl G) as (mem & w' & t & E & _ & B).
  exists mem, w', t. split; [exact E|exact B].
Defined.

(** C4, as stated, fails on Windows: when the large-page path gives nothing
    (here the process token cannot be opened) the regular VirtualAlloc of
    the fallback is asked for [allocSize] itself, 1 byte, and the block it
    returns is recorded with that size, not with the rounded size of
    2 MiB. *)
Lemma windows_fallback_is_not_sized_to_rounded_size :
  let o := aligned_large_pages_alloc windows_x64 sample_os_denied 1
             sample_world in
  value o = Some 0x10000
  /\ last (trace o) (exit_call 0)
     = VirtualAlloc_call nullptr 1 (Z.lor MEM_RESERVE MEM_COMMIT)
         PAGE_READWRITE 0x10000
  /\ heap (world_of o) = [(0x10000, 1)]
  /\ spec_roundedSize 1 (os_GetLargePageMinimum sample_os_denied) = 2097152
  /\ 1 <> spec_roundedSize 1 (os_GetLargePageMinimum sample_os_denied).
Proof.
  cbv zeta. repeat split; try (vm_compute; reflexivity).
  vm_compute. discriminate.
Qed.

(** The rounding of line 567 is not protected against wrap-around: on a
    64-bit Linux build a request of 2^64 - 1 bytes is rounded to 0. *)
Example round_up_to_alignment_wraps :
  round_up_to_alignment linux_x86_64 (2 ^ 64 - 1) = 0.
Proof. vm_compute. reflexivity. Qed.

(** * Properties of the rest of misc.cpp *)

(** ** Sizes, blocks and matching release functions *)

(** X1. The size that [aligned_large_pages_alloc] passes to the aligned
    allocation off Windows is a multiple of the alignment and a value of
    size_t, for every requested size: also when the addition of line 567
    wraps around. *)
Theorem round_up_to_alignment_multiple (pf : Platform) (allocSize : Z) :
  round_up_to_alignment pf allocSize mod alignment pf = 0
  /\ 0 <= round_up_to_alignment pf allocSize < 2 ^ size_t_bits pf.
Proof.
  unfold round_up_to_alignment. cbv zeta. unfold size_mul, wrap.
  set (q := size_div _ _).
  split.
  - rewrite Z.mod_mod_divide.
    + apply Z.mod_mul. pose proof (alignment_pos pf). lia.
    + unfold alignment, size_t_bits.
      destruct (__linux__ pf), (_WIN32 pf), (_WIN64 pf), (__LP64__ pf);
        try (exists (2 ^ 43); reflexivity);
        try (exists (2 ^ 11); reflexivity);
        try (exists (2 ^ 52); reflexivity);
        try (exists (2 ^ 20); reflexivity).
  - apply Z.mod_pos_bound. apply Z.pow_pos_nonneg; [lia|].
    pose proof (size_t_bits_pos pf). lia.
Qed.

(** X2. For a large-page size that is a power of two below 2^64, the size
    the helper passes to the large-page VirtualAlloc (line 527) is a
    multiple of the large-page size and a value of size_t, for every
    requested size: also when the addition wraps around. *)
Theorem round_up_to_large_page_multiple (allocSize largePageSize : Z) :
  is_power_of_two largePageSize = true ->
  largePageSize < 2 ^ 64 ->
  round_up_to_large_page allocSize largePageSize mod largePageSize = 0
  /\ 0 <= round_up_to_large_page allocSize largePageSize < 2 ^ 64.
Proof.
  intros Hp Hlt. destruct (power_of_two_log2 largePageSize Hp) as [E Hk].
  assert (Hg : 0 < largePageSize).
  { unfold is_power_of_two in Hp. apply andb_true_iff in Hp.
    destruct Hp as [Hp _]. apply Z.ltb_lt in Hp. exact Hp. }
  unfold round_up_to_large_page, size_and, size_not.
  set (x := size_sub 64 (size_add 64 allocSize largePageSize) 1).
  assert (Hx : 0 <= x < 2 ^ 64).
  { unfold x, size_sub, wrap. apply Z.mod_pos_bound. lia. }
  assert (Hl : size_sub 64 largePageSize 1 = largePageSize - 1).
  { unfold size_sub. apply wrap_small. lia. }
  rewrite Hl, land_wrap_r by lia.
  rewrite <- Z.ldiff_land.
  replace (largePageSize - 1) with (Z.ones (Z.log2 largePageSize))
    by (rewrite Z.ones_equiv; lia).
  rewrite Z.ldiff_ones_r by exact Hk.
  rewrite Z.shiftr_div_pow2, Z.shiftl_mul_pow2 by exact Hk.
  rewrite <- E. split.
  - apply Z.mod_mul. lia.
  - pose proof (Z.mul_div_le x largePageSize Hg).
    pose proof (Z.div_pos x largePageSize ltac:(lia) Hg). nia.
Qed.

(** X3. When the rounding does not wrap around, the rounded size of line 567
    is the requested size exactly when the requested size is a multiple of
    the alignment. *)
Theorem round_up_to_alignment_fixed_point (pf : Platform) (allocSize : Z) :
  0 <= allocSize ->
  allocSize + alignment pf - 1 < 2 ^ size_t_bits pf ->
  (round_up_to_alignment pf allocSize = allocSize
   <-> allocSize mod alignment pf = 0).
Proof.
  intros Hs Hw. rewrite (round_up_to_alignment_spec pf allocSize Hs Hw).
  pose proof (alignment_pos pf) as Hg.
  pose proof (Z.div_mod allocSize (alignment pf) ltac:(lia)) as D.
  unfold spec_roundedSize, ceil_div.
  destruct (allocSize mod alignment pf =? 0) eqn:E.
  - apply Z.eqb_eq in E. split; [intros _; exact E|intros _]. nia.
  - apply Z.eqb_neq in E. split; [|contradiction].
    intros H. pose proof (Z.mod_pos_bound allocSize (alignment pf) Hg). nia.
Qed.

Section AllocationEffects.

Variable pf : Platform.
Variable os : OS.

Lemma std_aligned_alloc_heap (a size : Z) (w : World) :
  exists p w' t,
    std_aligned_alloc pf os a size w = Returned p w' t
    /\ cerr w' = cerr w
    /\ (p = nullptr -> heap w' = heap w)
    /\ (p <> nullptr -> heap w' = (p, size) :: heap w).
Proof.
  unfold std_aligned_alloc. unfold_calls.
  all_paths; do 3 eexists; (split; [reflexivity|]);
    cbn -[add_block]; autorewrite with world;
    (split; [reflexivity|]);
    (split;
      [ intros N; try rewrite N; try reflexivity
      | intros N; try (exfalso; apply N; reflexivity);
        try (rewrite heap_add_block by exact N; reflexivity) ]).
Qed.

Lemma aligned_large_pages_alloc_heap (allocSize : Z) (w : World) :
  exists mem w' t,
    aligned_large_pages_alloc pf os allocSize w = Returned mem w' t
    /\ cerr w' = cerr w
    /\ (mem = nullptr -> heap w' = heap w)
    /\ (mem <> nullptr -> exists n, heap w' = (mem, n) :: heap w).
Proof.
  unfold aligned_large_pages_alloc. destruct (_WIN32 pf).
  - unfold aligned_large_pages_alloc_windows. unfold_calls.
    all_paths;
      repeat match goal with
             | E : (_ =? nullptr) = true |- _ => apply Z.eqb_eq in E
             | E : (_ =? nullptr) = false |- _ => apply Z.eqb_neq in E
             end;
      do 3 eexists; (split; [reflexivity|]);
      repeat progress (cbn -[add_block remove Z.lor]; autorewrite with world);
      (split; [reflexivity|]);
      (split;
        [ intros N; try contradiction;
          repeat match goal with
                 | E : _ = nullptr |- _ => rewrite E
                 end; cbn -[remove]; reflexivity
        | intros N; try (exfalso; apply N; reflexivity);
          eexists; rewrite heap_add_block by exact N;
          repeat match goal with
                 | E : _ = nullptr |- _ => rewrite E
                 end; cbn -[remove]; reflexivity ]).
  - cbv zeta.
    destruct (std_aligned_alloc_heap (alignment pf)
                (round_up_to_alignment pf allocSize) w)
      as (m & w1 & t1 & E & C & H0 & H1).
    unfold bind at 1. rewrite E. unfold_calls.
    destruct (defined_MADV_HUGEPAGE pf); cbn;
      (do 3 eexists; split; [reflexivity|]; split; [exact C|]; split;
       [exact H0|intros N; eexists; exact (H1 N)]).
Qed.

(** X4. [aligned_large_pages_alloc] returns, writes nothing to std::cerr, and
    leaves at most one new live block: none when it returns null, and
    exactly the block whose base it returns otherwise.  In particular a
    large-page block is never left behind when the fallback is taken. *)
Theorem allocation_adds_at_most_one_block (allocSize : Z) (w : World) :
  exists mem w' t,
    aligned_large_pages_alloc pf os allocSize w = Returned mem w' t
    /\ cerr w' = cerr w
    /\ (mem = nullptr -> heap w' = heap w)
    /\ (mem <> nullptr -> exists n, heap w' = (mem, n) :: heap w).
Proof. exact (aligned_large_pages_alloc_heap allocSize w). Qed.

Lemma filter_other_bases (p : Z) (h : list (Z * Z)) :
  (forall n, ~ In (p, n) h) ->
  filter (fun b => negb (fst b =? p)) h = h.
Proof.
  induction h as [|[q n] h IH]; simpl; intros F; [reflexivity|].
  destruct (q =? p) eqn:E; simpl.
  - apply Z.eqb_eq in E. subst q. exfalso. apply (F n). left. reflexivity.
  - rewrite IH; [reflexivity|]. intros m Hm. apply (F m). right. exact Hm.
Qed.

Lemma aligned_large_pages_free_releases (mem : Z) (w : World) :
  (_WIN32 pf = true -> mem <> nullptr ->
   fst (os_VirtualFree os mem 0 MEM_RELEASE) = true) ->
  exists t,
    aligned_large_pages_free pf os mem w = Returned tt (remove_block mem w) t.
Proof.
  intros Hok. unfold aligned_large_pages_free, std_aligned_free.
  unfold_calls.
  destruct (_WIN32 pf) eqn:W.
  - destruct (mem =? nullptr) eqn:E; cbn -[remove_block].
    + apply Z.eqb_eq in E. subst mem. eexists. reflexivity.
    + apply Z.eqb_neq in E. specialize (Hok eq_refl E).
      destruct (os_VirtualFree os mem 0 MEM_RELEASE) as [ok err].
      simpl in Hok. subst ok. cbn -[remove_block]. eexists. reflexivity.
  - destruct (POSIXALIGNEDALLOC pf); cbn -[remove_block];
      eexists; reflexivity.
Qed.

(** X7. Passing what [aligned_large_pages_alloc] returned to
    [aligned_large_pages_free] returns and leaves the live blocks and
    std::cerr as they were before the allocation, provided the pointer was
    not the base of a block that was already live and, on Windows,
    VirtualFree succeeds on it. *)
Theorem allocate_then_free_restores_heap (allocSize : Z) (w : World)
    (mem : Z) (w' : World) (t : list Call) :
  aligned_large_pages_alloc pf os allocSize w = Returned mem w' t ->
  (forall n, ~ In (mem, n) (heap w)) ->
  (_WIN32 pf = true -> mem <> nullptr ->
   fst (os_VirtualFree os mem 0 MEM_RELEASE) = true) ->
  exists w'' t',
    aligned_large_pages_free pf os mem w' = Returned tt w'' t'
    /\ heap w'' = heap w
    /\ cerr w'' = cerr w.
Proof.
  intros E Fresh Hok.
  destruct (aligned_large_pages_alloc_heap allocSize w)
    as (m & w1 & t1 & E1 & C & H0 & H1).
  rewrite E in E1. injection E1 as <- <- <-.
  destruct (aligned_large_pages_free_releases mem w' Hok) as (t' & F).
  exists (remove_block mem w'), t'. split; [exact F|].
  rewrite cerr_remove_block. split; [|exact C].
  unfold remove_block. destruct (mem =? nullptr) eqn:N.
  - apply Z.eqb_eq in N. exact (H0 N).
  - apply Z.eqb_neq in N. destruct (H1 N) as (n & H). cbn. rewrite H.
    cbn. rewrite Z.eqb_refl. cbn. apply filter_other_bases. exact Fresh.
Qed.

(** X5. In every build configuration the release function that
    [std_aligned_free] calls belongs to the family of the allocation
    function that [std_aligned_alloc] calls: free for posix_memalign and
    std::aligned_alloc, _mm_free for _mm_malloc, _aligned_free for
    _aligned_malloc. *)
Theorem std_aligned_free_matches_std_aligned_alloc (a size : Z) (w : World)
    (p : Z) (w2 : World) (c1 c2 : Call) (f1 f2 : Family) :
  In c1 (trace (std_aligned_alloc pf os a size w)) ->
  allocator_family c1 = Some f1 ->
  In c2 (trace (std_aligned_free pf p w2)) ->
  releaser_family c2 = Some f2 ->
  f1 = f2.
Proof.
  unfold std_aligned_alloc, std_aligned_free. unfold_calls.
  destruct (POSIXALIGNEDALLOC pf);
    [| destruct (_WIN32 pf && negb (_M_ARM pf) && negb (_M_ARM64 pf));
       [| destruct (_WIN32 pf)] ];
    try destruct (os_posix_memalign os a size);
    cbn; intros [<-|[]] A [<-|[]] R; cbn in A, R; congruence.
Qed.

(** X6. In every build configuration and on every path, the release function
    that [aligned_large_pages_free] calls belongs to the family of every
    allocation function that [aligned_large_pages_alloc] calls: VirtualFree
    for both VirtualAlloc calls on Windows, the C heap elsewhere. *)
Theorem large_pages_free_matches_large_pages_alloc (allocSize : Z)
    (w : World) (p : Z) (w2 : World) (c1 c2 : Call) (f1 f2 : Family) :
  In c1 (trace (aligned_large_pages_alloc pf os allocSize w)) ->
  allocator_family c1 = Some f1 ->
  In c2 (trace (aligned_large_pages_free pf os p w2)) ->
  releaser_family c2 = Some f2 ->
  f1 = f2.
Proof.
  intros I1 A I2 R.
  assert (F1 : f1 = if _WIN32 pf then VirtualMemory
                    else if POSIXALIGNEDALLOC pf then CHeap else CHeap).
  { revert I1 A. unfold aligned_large_pages_alloc,
      aligned_large_pages_alloc_windows, std_aligned_alloc. unfold_calls.
    all_paths; cbn; intros I1 A;
      repeat (destruct I1 as [<-|I1]; [cbn in A; congruence|]);
      destruct I1. }
  assert (F2 : f2 = if _WIN32 pf then VirtualMemory
                    else if POSIXALIGNEDALLOC pf then CHeap else CHeap).
  { revert I2 R. unfold aligned_large_pages_free, std_aligned_free.
    unfold_calls.
    all_paths; cbn; intros I2 R;
      repeat (destruct I2 as [<-|I2]; [cbn in R; congruence|]);
      destruct I2. }
  congruence.
Qed.

(** X8. On every path of the large-page helper on which no process token was
    opened, the helper returns null and leaves the live blocks, the
    privileges of the token, the open handles and std::cerr as they were. *)
Theorem helper_early_exit_leaves_world (allocSize : Z) (w : World) :
  let o := aligned_large_pages_alloc_windows pf os allocSize w in
  (forall process access token,
     ~ In (OpenProcessToken_call process access true token) (trace o)) ->
  value o = Some nullptr
  /\ heap (world_of o) = heap w
  /\ token_privileges (world_of o) = token_privileges w
  /\ open_handles (world_of o) = open_handles w
  /\ cerr (world_of o) = cerr w.
Proof.
  unfold aligned_large_pages_alloc_windows. unfold_calls.
  all_paths; cbn; intros H; try (repeat split; reflexivity);
    exfalso; eapply H;
    first [ do 5 right; left; reflexivity | do 6 right; left; reflexivity ].
Qed.

End AllocationEffects.

(** ** Parsing a size *)

(** Evaluate the digit tests on the literal characters of the goal. *)
Ltac eval_digits :=
  repeat match goal with
         | |- context [is_digit ?c] =>
             let b := eval vm_compute in (is_digit c) in
             change (is_digit c) with b
         | |- context [digit_value ?c] =>
             let v := eval vm_compute in (digit_value c) in
             change (digit_value c) with v
         end.

Lemma scan_digits_count (s : string) :
  forall acc count,
    snd (scan_digits acc count s) = (count + snd (scan_digits acc 0 s))%nat.
Proof.
  induction s as [|c s IH]; simpl; intros acc count; [lia|].
  destruct (is_digit c); simpl; [|lia].
  rewrite IH. rewrite (IH _ 1%nat). lia.
Qed.

Lemma scan_digits_value (s : string) :
  forall acc count count',
    fst (scan_digits acc count s) = fst (scan_digits acc count' s).
Proof.
  induction s as [|c s IH]; simpl; intros acc count count'; [reflexivity|].
  destruct (is_digit c); simpl; [apply IH|reflexivity].
Qed.

Lemma scan_digits_uint_acc (d : Decimal.uint) :
  forall (p : positive) (count : nat),
    fst (scan_digits (Z.pos p) count (DecimalString.NilEmpty.string_of_uint d))
    = Z.pos (Pos.of_uint_acc d p).
Proof.
  induction d; intros p count;
    cbn [DecimalString.NilEmpty.string_of_uint scan_digits Pos.of_uint_acc];
    try reflexivity; eval_digits; cbv iota;
    match goal with
    | |- fst (scan_digits ?a _ _) = Z.pos (Pos.of_uint_acc _ ?q) =>
        replace a with (Z.pos q) by lia
    end; apply IHd.
Qed.

Lemma scan_digits_uint (d : Decimal.uint) :
  forall count : nat,
    fst (scan_digits 0 count (DecimalString.NilEmpty.string_of_uint d))
    = Z.of_N (N.of_uint d).
Proof.
  induction d; intros count;
    cbn [DecimalString.NilEmpty.string_of_uint scan_digits N.of_uint
         Pos.of_uint];
    try reflexivity; eval_digits; cbv iota;
    first [ apply IHd | apply scan_digits_uint_acc ].
Qed.

Lemma scan_digits_first_digit (acc : Z) (c : ascii) (s : string) :
  is_digit c = true ->
  exists k, snd (scan_digits acc 0 (String c s)) = S k.
Proof.
  intros H. simpl. rewrite H, scan_digits_count. eexists. reflexivity.
Qed.

Lemma scan_digits_decimal (d : Decimal.uint) :
  exists k,
    scan_digits 0 0 (DecimalString.NilZero.string_of_uint d)
    = (Z.of_N (N.of_uint d), S k).
Proof.
  destruct d; try (exists 0%nat; reflexivity);
    unfold DecimalString.NilZero.string_of_uint;
    match goal with
    | |- exists k, scan_digits 0 0 (_ ?u) = _ =>
        pose proof (scan_digits_uint u 0) as V;
        cbn [DecimalString.NilEmpty.string_of_uint] in *;
        match goal with
        | |- exists k, scan_digits 0 0 (String ?c ?s) = _ =>
            destruct (scan_digits_first_digit 0 c s eq_refl) as (k & K);
            exists k; rewrite <- V, <- K; apply surjective_pairing
        end
    end.
Qed.

Lemma from_chars_decimal (bits n : Z) :
  0 <= n < 2 ^ bits ->
  exists ptr, from_chars bits (decimal n) = parsed n ptr.
Proof.
  intros Hn. unfold decimal, from_chars.
  destruct (scan_digits_decimal (N.to_uint (Z.to_N n))) as (k & E).
  rewrite E, DecimalN.Unsigned.of_to, Z2N.id by lia.
  destruct (n <? 2 ^ bits) eqn:B; [eexists; reflexivity|].
  apply Z.ltb_ge in B. lia.
Qed.

(** X9. [str_to_size_t] reads back every value of size_t from its decimal
    representation, without stopping the process. *)
Theorem str_to_size_t_decimal (pf : Platform) (n : Z) (w : World) :
  0 <= n < 2 ^ size_t_bits pf ->
  str_to_size_t pf (decimal n) w = Returned n w [].
Proof.
  intros Hn. unfold str_to_size_t.
  destruct (from_chars_decimal (size_t_bits pf) n Hn) as (ptr & E).
  rewrite E. reflexivity.
Qed.

Lemma scan_digits_stops (s : string) (c : ascii) (rest : string) :
  is_digit c = false ->
  forall acc count,
    scan_digits acc count (s ++ String c rest) = scan_digits acc count s.
Proof.
  intros H. induction s as [|d s IH]; simpl; intros acc count.
  - rewrite H. reflexivity.
  - destruct (is_digit d); [apply IH|reflexivity].
Qed.

(** X10. [str_to_size_t] does not look at what follows the digits: appending
    a character that is not a digit, and anything after it, changes
    nothing. *)
Theorem str_to_size_t_ignores_trailing_text (pf : Platform) (s : string)
    (c : ascii) (rest : string) :
  is_digit c = false ->
  str_to_size_t pf (s ++ String c rest) = str_to_size_t pf s.
Proof.
  intros H. unfold str_to_size_t, from_chars.
  rewrite (scan_digits_stops s c rest H). reflexivity.
Qed.

Lemma scan_digits_nonneg (s : string) :
  forall acc count, 0 <= acc -> 0 <= fst (scan_digits acc count s).
Proof.
  induction s as [|c s IH]; simpl; intros acc count Ha; [exact Ha|].
  destruct (is_digit c) eqn:D; [|exact Ha].
  apply IH. unfold is_digit, digit_value in *.
  apply andb_true_iff in D. destruct D as [D _]. apply Z.leb_le in D. lia.
Qed.

(** X11. [str_to_size_t] stops the process with EXIT_FAILURE, without
    writing anything, exactly when the text is empty, starts with a
    character that is not a digit (a sign, a blank), or its leading digits
    denote a number that does not fit size_t.  In every other case it
    returns the number that the leading digits denote, which is a value of
    size_t. *)
Theorem str_to_size_t_outcomes (pf : Platform) (s : string) (w : World) :
  ((s = EmptyString
    \/ (exists c rest, s = String c rest /\ is_digit c = false)
    \/ 2 ^ size_t_bits pf <= fst (scan_digits 0 0 s))
   /\ str_to_size_t pf s w = Exited EXIT_FAILURE w [exit_call EXIT_FAILURE])
  \/ (~ (s = EmptyString
         \/ (exists c rest, s = String c rest /\ is_digit c = false)
         \/ 2 ^ size_t_bits pf <= fst (scan_digits 0 0 s))
      /\ str_to_size_t pf s w = Returned (fst (scan_digits 0 0 s)) w []
      /\ 0 <= fst (scan_digits 0 0 s) < 2 ^ size_t_bits pf
      /\ exists c rest, s = String c rest /\ is_digit c = true).
Proof.
  unfold str_to_size_t, from_chars.
  destruct (scan_digits 0 0 s) as [v n] eqn:E.
  pose proof (scan_digits_nonneg s 0 0 ltac:(lia)) as V. rewrite E in V.
  cbn [fst] in *.
  destruct s as [|c rest].
  - simpl in E. injection E as <- <-. left. split; [|reflexivity].
    left. reflexivity.
  - simpl in E. destruct (is_digit c) eqn:D.
    + pose proof (scan_digits_count rest (digit_value c) 1) as C.
      rewrite E in C. simpl in C. subst n.
      destruct (v <? 2 ^ size_t_bits pf) eqn:B.
      * apply Z.ltb_lt in B. right. split.
        { intros [H|[(c' & rest' & H & D')|H]].
          - discriminate H.
          - injection H as <- <-. congruence.
          - lia. }
        split; [reflexivity|]. split; [lia|]. exists c, rest. auto.
      * apply Z.ltb_ge in B. left. split; [|reflexivity].
        right. right. exact B.
    + injection E as <- <-. left. split; [|reflexivity].
      right. left. exists c, rest. auto.
Qed.

(** ** The directory of the binary *)

Lemma find_last_of_split (chars s : string) :
  forall pos,
    find_last_of chars s = Some pos ->
    exists pre c post,
      s = (pre ++ String c post)%string
      /\ String.length pre = pos
      /\ char_in c chars = true
      /\ find_last_of chars post = None.
Proof.
  induction s as [|a s IH]; simpl; intros pos H; [discriminate H|].
  destruct (find_last_of chars s) as [i|] eqn:F.
  - injection H as <-. destruct (IH i eq_refl) as (pre & c & post & E & L & C & N).
    exists (String a pre), c, post. subst s. simpl. auto.
  - destruct (char_in a chars) eqn:C; [|discriminate H].
    injection H as <-. exists EmptyString, a, s. auto.
Qed.

Lemma length_app (a b : string) :
  String.length (a ++ b) = (String.length a + String.length b)%nat.
Proof. induction a as [|c a IH]; simpl; [reflexivity|]. rewrite IH. reflexivity. Qed.

Lemma substring_all (s : string) : substring 0 (String.length s) s = s.
Proof. induction s as [|c s IH]; simpl; [reflexivity|]. rewrite IH. reflexivity. Qed.

Lemma substring_prefix (pre : string) (c : ascii) (post : string) :
  substring 0 (String.length pre + 1) (pre ++ String c post)
  = (pre ++ String c EmptyString)%string.
Proof.
  induction pre as [|a pre IH]; simpl.
  - destruct post; reflexivity.
  - rewrite IH. reflexivity.
Qed.

Lemma resize_to_separator (pre : string) (c : ascii) (post : string) :
  resize (String.length pre + 1) (pre ++ String c post)
  = (pre ++ String c EmptyString)%string.
Proof.
  unfold resize. rewrite length_app. simpl.
  destruct (String.length pre + 1 <=? String.length pre + S (String.length post))%nat eqn:E.
  - apply substring_prefix.
  - apply Nat.leb_gt in E. lia.
Qed.

Lemma find_at_start (str s : string) :
  find str s = Some O <-> prefix str s = true.
Proof.
  unfold find. destruct s as [|b s]; cbn [index].
  - destruct str; simpl; split; intros H; try reflexivity; discriminate H.
  - destruct (prefix str (String b s)); [split; reflexivity|].
    destruct (index 0 str s); split; intros H; discriminate H.
Qed.

Lemma prefix_two (a b : ascii) (s : string) :
  prefix (String a (String b EmptyString)) s = true ->
  exists rest, s = String a (String b rest).
Proof.
  destruct s as [|x [|y rest]]; simpl; intros H; try discriminate H.
  - destruct (ascii_dec a x); discriminate H.
  - destruct (ascii_dec a x) as [<-|]; [|discriminate H].
    destruct (ascii_dec b y) as [<-|]; [|discriminate H].
    exists rest. reflexivity.
Qed.

Lemma replace_first (wd : string) (a b : ascii) (rest : string) :
  replace 0 1 wd (String a (String b rest)) = (wd ++ String b rest)%string.
Proof.
  unfold replace. simpl. rewrite substring_all. reflexivity.
Qed.

Lemma last_char_app (a : string) (c : ascii) (b : string) :
  last_char (a ++ String c b) = last_char (String c b).
Proof.
  induction a as [|x a IH]; [reflexivity|].
  change (last_char (String x (a ++ String c b)) = last_char (String c b)).
  destruct (a ++ String c b)%string eqn:E.
  - destruct a; discriminate E.
  - exact IH.
Qed.

Lemma pathSeparator_char (pf : Platform) :
  exists x, pathSeparator pf = String x EmptyString /\ is_separator x = true.
Proof.
  unfold pathSeparator. destruct (_WIN32 pf); eexists; split; reflexivity.
Qed.

Section BinaryDirectory.

Variable pf : Platform.
Variable _MSC_VER : bool.
Variable crt : CRT.

(** X13. When the program path holds no slash and no backslash,
    [CommandLine::get_binary_directory] returns the working directory
    followed by the path separator of the platform. *)
Theorem binary_directory_of_bare_name (argv0 : string) :
  find_last_of (String "092" "/") (program_path pf _MSC_VER crt argv0) = None ->
  get_binary_directory pf _MSC_VER crt argv0
  = (get_working_directory crt ++ pathSeparator pf)%string.
Proof.
  intros F. unfold get_binary_directory. cbv zeta. rewrite F.
  destruct (pathSeparator_char pf) as (x & -> & _).
  assert (P : find ("." ++ String x EmptyString) ("." ++ String x EmptyString) = Some O).
  { apply find_at_start. simpl.
    destruct (ascii_dec "." "."); [|contradiction].
    destruct (ascii_dec x x); [reflexivity|contradiction]. }
  rewrite P. apply replace_first.
Qed.

(** X14. When the program path holds a separator it splits at the last one
    into a directory part, which ends with that separator, and a name
    without separators; [CommandLine::get_binary_directory] returns the
    directory part, with its leading dot replaced by the working directory
    when it starts with a dot and the path separator of the platform. *)
Theorem binary_directory_of_path (argv0 : string) (pos : nat) :
  find_last_of (String "092" "/") (program_path pf _MSC_VER crt argv0) = Some pos ->
  exists dir c name,
    program_path pf _MSC_VER crt argv0 = (dir ++ String c name)%string
    /\ String.length dir = pos
    /\ is_separator c = true
    /\ find_last_of (String "092" "/") name = None
    /\ get_binary_directory pf _MSC_VER crt argv0
       = if prefix ("." ++ pathSeparator pf) (dir ++ String c EmptyString)
         then (get_working_directory crt
               ++ substring 1 (String.length dir) (dir ++ String c EmptyString))%string
         else (dir ++ String c EmptyString)%string.
Proof.
  intros F. destruct (find_last_of_split _ _ _ F) as (dir & c & name & E & L & C & N).
  exists dir, c, name. split; [exact E|]. split; [exact L|].
  split; [exact C|]. split; [exact N|].
  unfold get_binary_directory. cbv zeta. rewrite F, E, <- L.
  rewrite resize_to_separator.
  destruct (pathSeparator_char pf) as (x & -> & _).
  destruct (prefix ("." ++ String x EmptyString) (dir ++ String c EmptyString)) eqn:P.
  - pose proof (proj2 (find_at_start _ _) P) as Fd. rewrite Fd.
    destruct (prefix_two _ _ _ P) as (rest & R). rewrite R.
    rewrite replace_first. f_equal.
    assert (Len : String.length dir = S (String.length rest)).
    { apply (f_equal String.length) in R. rewrite length_app in R.
      simpl in R. lia. }
    rewrite Len. simpl. rewrite substring_all. reflexivity.
  - destruct (find ("." ++ String x EmptyString) (dir ++ String c EmptyString)) as [[|n]|] eqn:Fd;
      try reflexivity.
    apply find_at_start in Fd. rewrite Fd in P. discriminate P.
Qed.

(** X12. What [CommandLine::get_binary_directory] returns always ends with a
    slash or a backslash, for every [argv0], working directory and build
    configuration. *)
Theorem binary_directory_ends_with_separator (argv0 : string) :
  exists c,
    last_char (get_binary_directory pf _MSC_VER crt argv0) = Some c
    /\ is_separator c = true.
Proof.
  destruct (find_last_of (String "092" "/") (program_path pf _MSC_VER crt argv0))
    as [pos|] eqn:F.
  - destruct (find_last_of_split _ _ _ F) as (dir & c & name & E & L & C & N).
    exists c. split; [|exact C].
    unfold get_binary_directory. cbv zeta. rewrite F, E, <- L.
    rewrite resize_to_separator.
    destruct (pathSeparator_char pf) as (x & -> & _).
    destruct (find ("." ++ String x EmptyString) (dir ++ String c EmptyString)) as [[|n]|] eqn:Fd;
      try apply last_char_app.
    apply find_at_start in Fd. destruct (prefix_two _ _ _ Fd) as (rest & R).
    rewrite R, replace_first, last_char_app.
    change (last_char (String "." (String x rest)) = Some c).
    rewrite <- R. apply last_char_app.
  - unfold get_binary_directory. cbv zeta. rewrite F.
    destruct (pathSeparator_char pf) as (x & -> & S).
    exists x. split; [|exact S].
    assert (P : find ("." ++ String x EmptyString) ("." ++ String x EmptyString) = Some O).
    { apply find_at_start. simpl.
      destruct (ascii_dec "." "."); [|contradiction].
      destruct (ascii_dec x x); [reflexivity|contradiction]. }
    rewrite P.
    change ("." ++ String x EmptyString)%string with (String "." (String x EmptyString)).
    rewrite replace_first. apply last_char_app.
Qed.

End BinaryDirectory.

(** ** The tee of the log file *)

Lemma to_char_to_int_type (ch : ascii) : to_char (to_int_type ch) = ch.
Proof.
  unfold to_char, to_int_type.
  pose proof (N_ascii_bounded ch) as B.
  rewrite Z.mod_small by lia. rewrite N2Z.id. apply ascii_N_embedding.
Qed.

Lemma to_int_type_newline (ch : ascii) :
  (to_int_type ch =? newline) = Ascii.eqb ch "010"%char.
Proof.
  destruct (Ascii.eqb ch "010"%char) eqn:E.
  - apply Ascii.eqb_eq in E. subst ch. reflexivity.
  - apply Z.eqb_neq. intros H. apply Ascii.eqb_neq in E. apply E.
    rewrite <- (to_char_to_int_type ch), H. reflexivity.
Qed.

Lemma to_int_type_range (ch : ascii) : 0 <= to_int_type ch < 256.
Proof. unfold to_int_type. pose proof (N_ascii_bounded ch). lia. Qed.

Lemma string_app_assoc (a b c : string) :
  ((a ++ b) ++ c = a ++ (b ++ c))%string.
Proof. induction a as [|x a IH]; simpl; [reflexivity|]. rewrite IH. reflexivity. Qed.

Lemma string_app_nil_r (a : string) : (a ++ EmptyString)%string = a.
Proof. induction a as [|x a IH]; simpl; [reflexivity|]. rewrite IH. reflexivity. Qed.

Lemma put_all_fits (p : string) :
  forall b : OutputBuffer,
    (String.length p <= room b)%nat ->
    put_all p b = {| written := written b ++ p;
                     room := room b - String.length p |}.
Proof.
  induction p as [|ch p IH]; intros [w r] H; simpl in *.
  - rewrite string_app_nil_r, Nat.sub_0_r. reflexivity.
  - destruct r as [|r]; [lia|]. unfold sputc. simpl.
    rewrite IH by (simpl; lia). simpl.
    rewrite string_app_assoc. reflexivity.
Qed.

Lemma sputn_fits (p : string) (b : OutputBuffer) :
  String.length p = 3%nat ->
  (3 <= room b)%nat ->
  sputn p 3 b = {| written := written b ++ p; room := room b - 3 |}.
Proof.
  intros L H. unfold sputn. rewrite <- L at 1. rewrite substring_all.
  rewrite put_all_fits by lia. rewrite L. reflexivity.
Qed.

Lemma logged_cons (prefix : string) (last0 : Z) (ch : ascii) (s : string) :
  logged prefix last0 (String ch s)
  = ((if (last0 =? newline)%Z then prefix else EmptyString)
     ++ String ch (logged prefix (to_int_type ch) s))%string.
Proof.
  unfold logged. cbn [lines]. rewrite to_int_type_newline.
  destruct (Ascii.eqb ch "010"%char).
  - destruct (lines s) as [|l ls]; destruct (last0 =? newline);
      cbn [prefixed append]; rewrite ?string_app_nil_r; reflexivity.
  - destruct (lines s) as [|l ls]; destruct (last0 =? newline);
      cbn [prefixed append]; rewrite ?string_app_nil_r; reflexivity.
Qed.

Lemma Tie_log_room (c : Z) (prefix : string) (t : Tie.State) :
  String.length prefix = 3%nat ->
  (4 <= room (Tie.log_buffer t))%nat ->
  Tie.log c prefix t
  = (to_int_type (to_char c),
     {| Tie.cin_buffer := Tie.cin_buffer t;
        Tie.cout_buffer := Tie.cout_buffer t;
        Tie.log_buffer :=
          {| written :=
               written (Tie.log_buffer t)
               ++ (if Tie.last t =? newline then prefix else EmptyString)
               ++ String (to_char c) EmptyString;
             room :=
               room (Tie.log_buffer t)
               - (if Tie.last t =? newline then 3 else 0) - 1 |};
        Tie.last := to_int_type (to_char c) |}).
Proof.
  intros L H. unfold Tie.log. destruct (Tie.last t =? newline).
  - rewrite sputn_fits by assumption || lia. unfold sputc. simpl.
    destruct (room (Tie.log_buffer t) - 3)%nat as [|r] eqn:R; [lia|].
    rewrite string_app_assoc.
    replace (S r - 1)%nat with r by lia. reflexivity.
  - unfold sputc. destruct (room (Tie.log_buffer t)) as [|r] eqn:R; [lia|].
    simpl. rewrite Nat.sub_0_r. reflexivity.
Qed.

Lemma Tie_overflow_room (ch : ascii) (t : Tie.State) :
  (1 <= room (Tie.cout_buffer t))%nat ->
  (4 <= room (Tie.log_buffer t))%nat ->
  Tie.overflow (to_int_type ch) t
  = (to_int_type ch,
     {| Tie.cin_buffer := Tie.cin_buffer t;
        Tie.cout_buffer :=
          {| written := written (Tie.cout_buffer t) ++ String ch EmptyString;
             room := room (Tie.cout_buffer t) - 1 |};
        Tie.log_buffer :=
          {| written :=
               written (Tie.log_buffer t)
               ++ (if Tie.last t =? newline then "<< " else EmptyString)
               ++ String ch EmptyString;
             room :=
               room (Tie.log_buffer t)
               - (if Tie.last t =? newline then 3 else 0) - 1 |};
        Tie.last := to_int_type ch |}).
Proof.
  intros Hc Hl. unfold Tie.overflow, sputc.
  destruct (room (Tie.cout_buffer t)) as [|rc] eqn:Rc; [lia|].
  rewrite to_char_to_int_type.
  rewrite Tie_log_room by (simpl; lia).
  rewrite to_char_to_int_type.
  cbn [Tie.cin_buffer Tie.cout_buffer Tie.log_buffer Tie.last written room String.length].
  repeat f_equal; destruct (Tie.last t =? newline); lia.
Qed.

Lemma write_text_effect (s : string) :
  forall t : Tie.State,
    (String.length s <= room (Tie.cout_buffer t))%nat ->
    (4 * String.length s <= room (Tie.log_buffer t))%nat ->
    let t' := write_text s t in
    written (Tie.cout_buffer t') = (written (Tie.cout_buffer t) ++ s)%string
    /\ written (Tie.log_buffer t')
       = (written (Tie.log_buffer t) ++ logged "<< " (Tie.last t) s)%string
    /\ Tie.cin_buffer t' = Tie.cin_buffer t.
Proof.
  induction s as [|ch s IH]; intros t Hc Hl; cbv zeta; cbn [write_text].
  - unfold logged. simpl. rewrite !string_app_nil_r. auto.
  - cbv zeta in IH. simpl in Hc, Hl.
    rewrite Tie_overflow_room by lia. cbn [snd].
    match goal with
    | |- context [write_text s ?u] =>
        set (t1 := u);
        destruct (IH t1) as (Ic & Il & Ii);
        [ unfold t1; cbn [Tie.cout_buffer room]; lia
        | unfold t1; cbn [Tie.log_buffer room];
          destruct (Tie.last t =? newline); lia
        | ]
    end.
    rewrite Ic, Il, Ii. unfold t1.
    cbn [Tie.cout_buffer Tie.log_buffer Tie.cin_buffer written Tie.last].
    rewrite logged_cons. rewrite !string_app_assoc. auto.
Qed.





Section TieProperties.

Variable t : Tie.State.

(** X21. While std::cout is tied, a text written at a line start reaches the
    buffer of std::cout unchanged, and the log receives each of its lines
    behind the mark "<< " (as long as both buffers take the characters). *)
Theorem tied_output_is_copied_and_logged (s : string) :
  Tie.last t = newline ->
  (String.length s <= room (Tie.cout_buffer t))%nat ->
  (4 * String.length s <= room (Tie.log_buffer t))%nat ->
  let t' := write_text s t in
  written (Tie.cout_buffer t') = (written (Tie.cout_buffer t) ++ s)%string
  /\ written (Tie.log_buffer t')
     = (written (Tie.log_buffer t) ++ prefixed "<< " (lines s))%string.
Proof.
  intros L Hc Hl.
  destruct (write_text_effect s t Hc Hl) as (C & G & _).
  split; [exact C|]. rewrite G. f_equal. unfold logged. rewrite L.
  destruct (lines s); reflexivity.
Qed.


(** X23. When the log takes characters, [Tie::uflow] at the end of the input
    and [Tie::overflow] on a full output buffer do not return EOF: they
    write char(EOF) to the log and return 255, the result of that write.
    [Tie::underflow] does return EOF at the end of the input. *)
Theorem tie_hides_failure_of_the_wrapped_buffer (c : Z) :
  (4 <= room (Tie.log_buffer t))%nat ->
  (pending (Tie.cin_buffer t) = EmptyString ->
   Tie.underflow t = EOF
   /\ fst (Tie.uflow t) = 255
   /\ written (Tie.log_buffer (snd (Tie.uflow t)))
      = (written (Tie.log_buffer t)
         ++ (if (Tie.last t =? newline)%Z then ">> " else EmptyString)
         ++ String (to_char EOF) EmptyString)%string)
  /\ (room (Tie.cout_buffer t) = 0%nat ->
      fst (Tie.overflow c t) = 255
      /\ written (Tie.cout_buffer (snd (Tie.overflow c t)))
         = written (Tie.cout_buffer t)
      /\ written (Tie.log_buffer (snd (Tie.overflow c t)))
         = (written (Tie.log_buffer t)
            ++ (if (Tie.last t =? newline)%Z then "<< " else EmptyString)
            ++ String (to_char EOF) EmptyString)%string).
Proof.
  intros Hl. split.
  - intros P. unfold Tie.underflow, sgetc, Tie.uflow, sbumpc. rewrite P.
    rewrite Tie_log_room by (simpl; lia). cbn. auto.
  - intros R. unfold Tie.overflow, sputc. rewrite R.
    rewrite Tie_log_room by (simpl; lia). cbn. auto.
Qed.

(** X24. When the log takes no more characters, [Tie::overflow] returns EOF
    although the buffer of std::cout received the character. *)
Theorem tie_reports_failure_of_the_log (ch : ascii) :
  room (Tie.log_buffer t) = 0%nat ->
  (1 <= room (Tie.cout_buffer t))%nat ->
  fst (Tie.overflow (to_int_type ch) t) = EOF
  /\ written (Tie.cout_buffer (snd (Tie.overflow (to_int_type ch) t)))
     = (written (Tie.cout_buffer t) ++ String ch EmptyString)%string
  /\ written (Tie.log_buffer (snd (Tie.overflow (to_int_type ch) t)))
     = written (Tie.log_buffer t).
Proof.
  intros Rl Rc. unfold Tie.overflow, sputc.
  destruct (room (Tie.cout_buffer t)) as [|rc] eqn:E; [lia|].
  rewrite to_char_to_int_type. unfold Tie.log.
  cbn [Tie.log_buffer Tie.last Tie.cin_buffer Tie.cout_buffer].
  assert (S : forall p n, sputn p n (Tie.log_buffer t) = Tie.log_buffer t).
  { intros p n. unfold sputn. destruct (substring 0 n p); simpl;
      [reflexivity|]. rewrite Rl. reflexivity. }
  destruct (Tie.last t =? newline); rewrite ?S; unfold sputc; rewrite Rl;
    cbn; auto.
Qed.

End TieProperties.

(** ** The version string *)

Lemma skip_spaces_word (w : string) : no_space w = true -> skip_spaces w = w.
Proof.
  destruct w as [|c w]; simpl; intros H; [reflexivity|].
  apply andb_true_iff in H. destruct H as [H _].
  apply negb_true_iff in H. rewrite H. reflexivity.
Qed.

Lemma take_word_word (w : string) :
  no_space w = true -> take_word w = (w, EmptyString).
Proof.
  induction w as [|c w IH]; simpl; intros H; [reflexivity|].
  apply andb_true_iff in H. destruct H as [H1 H2].
  apply negb_true_iff in H1. rewrite H1, (IH H2). reflexivity.
Qed.

Lemma extract_last_word (w : string) :
  no_space w = true -> extract_word (String " " w) = (w, EmptyString).
Proof.
  intros H. unfold extract_word. cbn [skip_spaces].
  change (is_space " ") with true. cbv iota.
  rewrite (skip_spaces_word w H). apply take_word_word. exact H.
Qed.

Lemma extract_month (pf : Platform) (m : nat) (rest : string) :
  (m < 12)%nat ->
  extract_word (month_name m ++ String " " rest)
  = (month_name m, String " " rest)
  /\ put_width 2 "0"
       (decimal (size_add (size_t_bits pf) 1
                   (size_div (position pf (find (month_name m) months)) 4)))
     = two_digits (Z.of_nat m + 1).
Proof.
  intros H.
  assert (B : size_t_bits pf = 32 \/ size_t_bits pf = 64).
  { unfold size_t_bits. destruct (_WIN32 pf), (_WIN64 pf), (__LP64__ pf); auto. }
  do 12 (destruct m as [|m]; [split; [reflexivity|];
                              destruct B as [-> | ->]; vm_compute; reflexivity|]).
  lia.
Qed.

Lemma extract_day (d : Z) (rest : string) :
  1 <= d <= 31 ->
  extract_word (String " " ((if (d <? 10)%Z then " " else EmptyString) ++ decimal d
                            ++ String " " rest))
  = (decimal d, String " " rest)
  /\ put_width 2 "0" (decimal d) = two_digits d.
Proof.
  intros H.
  assert (C : exists n : nat, d = Z.of_nat n /\ (1 <= n <= 31)%nat).
  { exists (Z.to_nat d). lia. }
  destruct C as (n & -> & Hn).
  destruct n as [|n]; [lia|].
  do 31 (destruct n as [|n]; [split; reflexivity|]).
  lia.
Qed.

(** X15. For a build without GIT_DATE and GIT_SHA whose __DATE__ has the
    form "Mmm dd yyyy" of ISO C, [engine_info] is
    "Pikafish dev-YYYYMMDD-nogit" followed by the author line, with the
    month as its two-digit number and the day padded with a zero. *)
Theorem engine_info_dev_build (pf : Platform) (m : nat) (d : Z)
    (year : string) (to_uci : bool) :
  (m < 12)%nat ->
  1 <= d <= 31 ->
  no_space year = true ->
  engine_info pf {| GIT_DATE := None; GIT_SHA := None;
                    __DATE__ := date_text m d year |} to_uci
  = ("Pikafish dev-" ++ year ++ two_digits (Z.of_nat m + 1) ++ two_digits d
     ++ "-nogit" ++ (if to_uci then String "010" "id author " else " by ")
     ++ "the Pikafish developers (see AUTHORS file)")%string.
Proof.
  intros Hm Hd Hy. unfold engine_info, date_text.
  cbn [GIT_DATE GIT_SHA __DATE__].
  change (String.eqb version "dev") with true. cbv iota zeta.
  destruct (extract_month pf m
              ((if (d <? 10)%Z then " " else EmptyString) ++ decimal d ++ " " ++ year) Hm)
    as (M1 & M2).
  change (" " ++ (if (d <? 10)%Z then " " else EmptyString) ++ decimal d ++ " " ++ year)%string
    with (String " " ((if (d <? 10)%Z then " " else EmptyString) ++ decimal d ++ " " ++ year)).
  rewrite M1.
  destruct (extract_day d year Hd) as (D1 & D2).
  change (" " ++ year)%string with (String " " year).
  rewrite D1, (extract_last_word year Hy), M2, D2.
  unfold version. cbn [append]. rewrite !string_app_assoc. reflexivity.
Qed.

(** ** Debug counters *)

Lemma update_at_length {A : Type} (f : A -> A) (l : list A) :
  forall i, List.length (update_at i f l) = List.length l.
Proof.
  induction l as [|x l IH]; intros [|i]; simpl; try reflexivity.
  rewrite IH. reflexivity.
Qed.

Lemma nth_update_at_same {A : Type} (f : A -> A) (d : A) (l : list A) :
  forall i, (i < List.length l)%nat -> nth i (update_at i f l) d = f (nth i l d).
Proof.
  induction l as [|x l IH]; intros [|i] H; simpl in *; try lia;
    [reflexivity|]. apply IH. lia.
Qed.

Lemma nth_update_at_other {A : Type} (f : A -> A) (d : A) (l : list A) :
  forall i j, i <> j -> nth j (update_at i f l) d = nth j l d.
Proof.
  induction l as [|x l IH]; intros [|i] [|j] H; simpl; try reflexivity;
    try contradiction. apply IH. lia.
Qed.

Lemma update_at_Forall {A : Type} (P : A -> Prop) (f : A -> A) (l : list A) :
  (forall x, P x -> P (f x)) -> Forall P l ->
  forall i, Forall P (update_at i f l).
Proof.
  intros Hf H. induction H as [|x l Hx Hl IH]; intros [|i]; simpl;
    constructor; auto.
Qed.

Lemma fetch_add_well_formed (n : nat) (a : DebugArray) (slot index v : Z) :
  well_formed n a -> well_formed n (fetch_add a slot index v).
Proof.
  intros [L F]. unfold fetch_add.
  destruct ((slot <? 0) || (index <? 0)); [split; assumption|].
  split.
  - rewrite update_at_length. exact L.
  - apply update_at_Forall; [|exact F].
    intros row R. rewrite update_at_length. exact R.
Qed.

Lemma row_length (n : nat) (a : DebugArray) (slot : Z) :
  well_formed n a -> 0 <= slot < MaxDebugSlots ->
  List.length (nth (Z.to_nat slot) a []) = n.
Proof.
  intros [L F] H. rewrite Forall_forall in F. apply F. apply nth_In.
  rewrite L. unfold MaxDebugSlots in *. lia.
Qed.

Lemma counter_fetch_add_same (n : nat) (a : DebugArray) (slot index v : Z) :
  well_formed n a -> 0 <= slot < MaxDebugSlots ->
  0 <= index < Z.of_nat n ->
  counter (fetch_add a slot index v) slot index
  = wrap_int64 (counter a slot index + v).
Proof.
  intros W Hs Hi. pose proof (row_length n a slot W Hs) as R.
  destruct W as [L F]. unfold counter, fetch_add.
  replace ((slot <? 0) || (index <? 0)) with false
    by (symmetry; apply orb_false_iff; split; apply Z.ltb_ge; lia).
  rewrite nth_update_at_same by (rewrite L; unfold MaxDebugSlots in *; lia).
  rewrite nth_update_at_same by lia. reflexivity.
Qed.

Lemma counter_fetch_add_other (a : DebugArray) (slot index v slot' index' : Z) :
  0 <= slot' -> 0 <= index' ->
  (slot', index') <> (slot, index) ->
  counter (fetch_add a slot index v) slot' index' = counter a slot' index'.
Proof.
  intros Hs Hi N. unfold counter, fetch_add.
  destruct ((slot <? 0) || (index <? 0)) eqn:G; [reflexivity|].
  apply orb_false_iff in G. destruct G as [G1 G2].
  apply Z.ltb_ge in G1, G2.
  destruct (Z.eq_dec slot' slot) as [->|Ns].
  - destruct (Nat.lt_ge_cases (Z.to_nat slot) (List.length a)) as [Lt|Ge].
    + rewrite nth_update_at_same by exact Lt.
      apply nth_update_at_other. intros E. apply N. f_equal. lia.
    + rewrite (nth_overflow (update_at _ _ a))
        by (rewrite update_at_length; exact Ge).
      rewrite (nth_overflow a) by exact Ge. reflexivity.
  - rewrite nth_update_at_other by lia. reflexivity.
Qed.

Lemma wrap_int64_small (x : Z) :
  - 2 ^ 63 <= x < 2 ^ 63 -> wrap_int64 x = x.
Proof. intros H. unfold wrap_int64. rewrite Z.mod_small by lia. lia. Qed.

Lemma wrap_int64_add_l (x y : Z) :
  wrap_int64 (wrap_int64 x + y) = wrap_int64 (x + y).
Proof.
  unfold wrap_int64.
  replace ((x + 2 ^ 63) mod 2 ^ 64 - 2 ^ 63 + y + 2 ^ 63)
    with ((x + 2 ^ 63) mod 2 ^ 64 + y) by lia.
  rewrite Zplus_mod_idemp_l. f_equal. f_equal. lia.
Qed.

Lemma wrap_int64_add_r (x y : Z) :
  wrap_int64 (x + wrap_int64 y) = wrap_int64 (x + y).
Proof. rewrite Z.add_comm, wrap_int64_add_l. f_equal. lia. Qed.

Section DebugCounters.

Variable slot : Z.
Hypothesis slot_in_range : 0 <= slot < MaxDebugSlots.

Ltac other_counter :=
  rewrite counter_fetch_add_other by (try lia; intros E; discriminate E).

Ltac same_counter n :=
  rewrite (counter_fetch_add_same n)
    by (repeat apply fetch_add_well_formed; auto; lia).

Lemma dbg_hit_on_counts (conds : list bool) :
  forall (d : DebugTables) (n0 n1 : Z),
    well_formed 2 (hit d) ->
    counter (hit d) slot 0 = wrap_int64 n0 ->
    counter (hit d) slot 1 = wrap_int64 n1 ->
    let d' := fold_left (fun d c => dbg_hit_on c slot d) conds d in
    well_formed 2 (hit d')
    /\ counter (hit d') slot 0
       = wrap_int64 (n0 + Z.of_nat (List.length conds))
    /\ counter (hit d') slot 1 = wrap_int64 (n1 + count_true conds).
Proof.
  induction conds as [|c conds IH]; intros d n0 n1 W H0 H1; cbn [fold_left].
  - unfold count_true. simpl. rewrite !Z.add_0_r. auto.
  - cbv zeta in IH.
    assert (S : well_formed 2 (hit (dbg_hit_on c slot d))
                /\ counter (hit (dbg_hit_on c slot d)) slot 0
                   = wrap_int64 (n0 + 1)
                /\ counter (hit (dbg_hit_on c slot d)) slot 1
                   = wrap_int64 (n1 + (if c then 1 else 0))).
    { unfold dbg_hit_on. cbv zeta. destruct c; cbn [hit set_hit].
      - split; [repeat apply fetch_add_well_formed; exact W|]. split.
        + other_counter. same_counter 2%nat.
          rewrite H0. apply wrap_int64_add_l.
        + same_counter 2%nat. other_counter.
          rewrite H1. apply wrap_int64_add_l.
      - split; [repeat apply fetch_add_well_formed; exact W|]. split.
        + same_counter 2%nat. rewrite H0. apply wrap_int64_add_l.
        + other_counter. rewrite Z.add_0_r. exact H1. }
    destruct S as (W' & H0' & H1').
    destruct (IH _ _ _ W' H0' H1') as (Wf & F0 & F1).
    split; [exact Wf|]. split.
    + rewrite F0. f_equal. cbn [List.length]. lia.
    + rewrite F1. f_equal. unfold count_true. destruct c; cbn [filter List.length]; lia.
Qed.

Lemma zero_array_well_formed (n : nat) : well_formed n (zero_array n).
Proof.
  unfold well_formed, zero_array. split.
  - apply repeat_length.
  - apply Forall_forall. intros row H. apply repeat_spec in H. subst row.
    apply repeat_length.
Qed.

Lemma zero_array_counter (n : nat) (s i : Z) : counter (zero_array n) s i = 0.
Proof.
  unfold counter, zero_array.
  destruct (Nat.lt_ge_cases (Z.to_nat s) (Z.to_nat MaxDebugSlots)) as [L|G].
  - rewrite nth_repeat_lt by exact L.
    destruct (Nat.lt_ge_cases (Z.to_nat i) n) as [L'|G'].
    + apply nth_repeat_lt. exact L'.
    + apply nth_overflow. rewrite repeat_length. exact G'.
  - rewrite (nth_overflow (repeat _ _)) by (rewrite repeat_length; exact G).
    destruct (Z.to_nat i); reflexivity.
Qed.

(** X16. After fewer than 2^63 calls of [dbg_hit_on] on one slot since program
    start, the first counter of the slot is the number of calls, the second
    the number of calls whose condition held, and the second is not above
    the first. *)
Theorem dbg_hit_on_totals (conds : list bool) :
  Z.of_nat (List.length conds) < 2 ^ 63 ->
  let d := fold_left (fun d c => dbg_hit_on c slot d) conds
             debug_tables_init in
  counter (hit d) slot 0 = Z.of_nat (List.length conds)
  /\ counter (hit d) slot 1 = count_true conds
  /\ counter (hit d) slot 1 <= counter (hit d) slot 0.
Proof.
  intros Hn. cbv zeta.
  destruct (dbg_hit_on_counts conds debug_tables_init 0 0
              (zero_array_well_formed 2)
              (zero_array_counter 2 slot 0) (zero_array_counter 2 slot 1))
    as (_ & H0 & H1).
  assert (C : 0 <= count_true conds <= Z.of_nat (List.length conds)).
  { unfold count_true. pose proof (filter_length_le (fun c : bool => c) conds).
    lia. }
  rewrite H0, H1. rewrite !wrap_int64_small by lia. lia.
Qed.

Lemma dbg_mean_of_counts (values : list Z) :
  forall (d : DebugTables) (n0 n1 : Z),
    well_formed 2 (mean d) ->
    counter (mean d) slot 0 = wrap_int64 n0 ->
    counter (mean d) slot 1 = wrap_int64 n1 ->
    let d' := fold_left (fun d v => dbg_mean_of v slot d) values d in
    well_formed 2 (mean d')
    /\ counter (mean d') slot 0
       = wrap_int64 (n0 + Z.of_nat (List.length values))
    /\ counter (mean d') slot 1 = wrap_int64 (n1 + sum_values values).
Proof.
  induction values as [|v values IH]; intros d n0 n1 W H0 H1;
    cbn [fold_left].
  - simpl. rewrite !Z.add_0_r. auto.
  - cbv zeta in IH.
    assert (S : well_formed 2 (mean (dbg_mean_of v slot d))
                /\ counter (mean (dbg_mean_of v slot d)) slot 0
                   = wrap_int64 (n0 + 1)
                /\ counter (mean (dbg_mean_of v slot d)) slot 1
                   = wrap_int64 (n1 + v)).
    { unfold dbg_mean_of. cbv zeta. cbn [mean set_mean].
      split; [repeat apply fetch_add_well_formed; exact W|]. split.
      - other_counter. same_counter 2%nat.
        rewrite H0. apply wrap_int64_add_l.
      - same_counter 2%nat. other_counter.
        rewrite H1. apply wrap_int64_add_l. }
    destruct S as (W' & H0' & H1').
    destruct (IH _ _ _ W' H0' H1') as (Wf & F0 & F1).
    split; [exact Wf|]. split.
    + rewrite F0. f_equal. cbn [List.length]. lia.
    + rewrite F1. f_equal. cbn [sum_values fold_right]. fold (sum_values values). lia.
Qed.

(** X17. After any calls of [dbg_mean_of] on one slot since program start,
    the counters of the slot are the number of calls and the sum of the
    values, as int64_t. *)
Theorem dbg_mean_of_totals (values : list Z) :
  let d := fold_left (fun d v => dbg_mean_of v slot d) values
             debug_tables_init in
  counter (mean d) slot 0 = wrap_int64 (Z.of_nat (List.length values))
  /\ counter (mean d) slot 1 = wrap_int64 (sum_values values).
Proof.
  cbv zeta.
  destruct (dbg_mean_of_counts values debug_tables_init 0 0
              (zero_array_well_formed 2)
              (zero_array_counter 2 slot 0) (zero_array_counter 2 slot 1))
    as (_ & H0 & H1).
  split; assumption.
Qed.

Lemma dbg_stdev_of_counts (values : list Z) :
  Forall (fun v => - 2 ^ 63 <= v * v < 2 ^ 63) values ->
  forall (d : DebugTables) (n0 n1 n2 : Z),
    well_formed 3 (stdev d) ->
    counter (stdev d) slot 0 = wrap_int64 n0 ->
    counter (stdev d) slot 1 = wrap_int64 n1 ->
    counter (stdev d) slot 2 = wrap_int64 n2 ->
    let d' := fold_left (fun d v => dbg_stdev_of v slot d) values d in
    well_formed 3 (stdev d')
    /\ counter (stdev d') slot 0
       = wrap_int64 (n0 + Z.of_nat (List.length values))
    /\ counter (stdev d') slot 1 = wrap_int64 (n1 + sum_values values)
    /\ counter (stdev d') slot 2 = wrap_int64 (n2 + sum_of_squares values).
Proof.
  induction 1 as [|v values Hv Hvs IH]; intros d n0 n1 n2 W H0 H1 H2;
    cbn [fold_left].
  - unfold sum_of_squares. simpl. rewrite !Z.add_0_r. auto.
  - cbv zeta in IH.
    assert (S : well_formed 3 (stdev (dbg_stdev_of v slot d))
                /\ counter (stdev (dbg_stdev_of v slot d)) slot 0
                   = wrap_int64 (n0 + 1)
                /\ counter (stdev (dbg_stdev_of v slot d)) slot 1
                   = wrap_int64 (n1 + v)
                /\ counter (stdev (dbg_stdev_of v slot d)) slot 2
                   = wrap_int64 (n2 + v * v)).
    { unfold dbg_stdev_of, int64_mul. cbv zeta. cbn [stdev set_stdev].
      rewrite (wrap_int64_small (v * v)) by exact Hv.
      split; [repeat apply fetch_add_well_formed; exact W|]. split; [|split].
      - do 2 other_counter. same_counter 3%nat.
        rewrite H0. apply wrap_int64_add_l.
      - other_counter. same_counter 3%nat. other_counter.
        rewrite H1. apply wrap_int64_add_l.
      - same_counter 3%nat. do 2 other_counter.
        rewrite H2. apply wrap_int64_add_l. }
    destruct S as (W' & H0' & H1' & H2').
    destruct (IH _ _ _ _ W' H0' H1' H2') as (Wf & F0 & F1 & F2).
    split; [exact Wf|]. split; [|split].
    + rewrite F0. f_equal. cbn [List.length]. lia.
    + rewrite F1. f_equal. cbn [sum_values fold_right]. fold (sum_values values). lia.
    + rewrite F2. f_equal. unfold sum_of_squares.
      cbn [map sum_values fold_right]. fold (sum_values (map (fun v => v * v) values)). lia.
Qed.

(** X18. After any calls of [dbg_stdev_of] on one slot since program start,
    with values whose squares fit int64_t, the counters of the slot are the
    number of calls, the sum of the values and the sum of their squares, as
    int64_t. *)
Theorem dbg_stdev_of_totals (values : list Z) :
  Forall (fun v => - 2 ^ 63 <= v * v < 2 ^ 63) values ->
  let d := fold_left (fun d v => dbg_stdev_of v slot d) values
             debug_tables_init in
  counter (stdev d) slot 0 = wrap_int64 (Z.of_nat (List.length values))
  /\ counter (stdev d) slot 1 = wrap_int64 (sum_values values)
  /\ counter (stdev d) slot 2 = wrap_int64 (sum_of_squares values).
Proof.
  intros H. cbv zeta.
  destruct (dbg_stdev_of_counts values H debug_tables_init 0 0 0
              (zero_array_well_formed 3)
              (zero_array_counter 3 slot 0) (zero_array_counter 3 slot 1)
              (zero_array_counter 3 slot 2))
    as (_ & H0 & H1 & H2).
  auto.
Qed.

Lemma dbg_correl_of_counts (values : list (Z * Z)) :
  Forall (fun p => in_int64 (fst p * fst p) /\ in_int64 (snd p * snd p)
                   /\ in_int64 (fst p * snd p)) values ->
  forall (d : DebugTables) (n0 n1 n2 n3 n4 n5 : Z),
    well_formed 6 (correl d) ->
    counter (correl d) slot 0 = wrap_int64 n0 ->
    counter (correl d) slot 1 = wrap_int64 n1 ->
    counter (correl d) slot 2 = wrap_int64 n2 ->
    counter (correl d) slot 3 = wrap_int64 n3 ->
    counter (correl d) slot 4 = wrap_int64 n4 ->
    counter (correl d) slot 5 = wrap_int64 n5 ->
    let d' := fold_left (fun d p => dbg_correl_of (fst p) (snd p) slot d)
                values d in
    well_formed 6 (correl d')
    /\ counter (correl d') slot 0
       = wrap_int64 (n0 + Z.of_nat (List.length values))
    /\ counter (correl d') slot 1 = wrap_int64 (n1 + sum_values (map fst values))
    /\ counter (correl d') slot 2
       = wrap_int64 (n2 + sum_of_squares (map fst values))
    /\ counter (correl d') slot 3 = wrap_int64 (n3 + sum_values (map snd values))
    /\ counter (correl d') slot 4
       = wrap_int64 (n4 + sum_of_squares (map snd values))
    /\ counter (correl d') slot 5 = wrap_int64 (n5 + sum_of_products values).
Proof.
  induction 1 as [|[x y] values Hv Hvs IH];
    intros d n0 n1 n2 n3 n4 n5 W H0 H1 H2 H3 H4 H5; cbn [fold_left].
  - unfold sum_of_squares, sum_of_products. simpl. rewrite !Z.add_0_r.
    split; [exact W|]. repeat split; assumption.
  - cbv zeta in IH. cbn [fst snd] in *. destruct Hv as (Hxx & Hyy & Hxy).
    set (d1 := dbg_correl_of x y slot d).
    assert (S : well_formed 6 (correl d1)
                /\ counter (correl d1) slot 0 = wrap_int64 (n0 + 1)
                /\ counter (correl d1) slot 1 = wrap_int64 (n1 + x)
                /\ counter (correl d1) slot 2 = wrap_int64 (n2 + x * x)
                /\ counter (correl d1) slot 3 = wrap_int64 (n3 + y)
                /\ counter (correl d1) slot 4 = wrap_int64 (n4 + y * y)
                /\ counter (correl d1) slot 5 = wrap_int64 (n5 + x * y)).
    { unfold d1, dbg_correl_of, int64_mul. cbv zeta.
      cbn [correl set_correl].
      rewrite (wrap_int64_small (x * x)) by exact Hxx.
      rewrite (wrap_int64_small (y * y)) by exact Hyy.
      rewrite (wrap_int64_small (x * y)) by exact Hxy.
      split; [repeat apply fetch_add_well_formed; exact W|].
      repeat split.
      - do 5 other_counter. same_counter 6%nat.
        rewrite H0. apply wrap_int64_add_l.
      - do 4 other_counter. same_counter 6%nat. other_counter.
        rewrite H1. apply wrap_int64_add_l.
      - do 3 other_counter. same_counter 6%nat. do 2 other_counter.
        rewrite H2. apply wrap_int64_add_l.
      - do 2 other_counter. same_counter 6%nat. do 3 other_counter.
        rewrite H3. apply wrap_int64_add_l.
      - other_counter. same_counter 6%nat. do 4 other_counter.
        rewrite H4. apply wrap_int64_add_l.
      - same_counter 6%nat. do 5 other_counter.
        rewrite H5. apply wrap_int64_add_l. }
    destruct S as (W' & H0' & H1' & H2' & H3' & H4' & H5').
    destruct (IH _ _ _ _ _ _ _ W' H0' H1' H2' H3' H4' H5')
      as (Wf & F0 & F1 & F2 & F3 & F4 & F5).
    split; [exact Wf|].
    unfold sum_of_squares, sum_of_products in *.
    cbn [map sum_values fold_right List.length fst snd].
    repeat split;
      first [ rewrite F0 | rewrite F1 | rewrite F2 | rewrite F3
            | rewrite F4 | rewrite F5 ];
      f_equal; unfold sum_values; lia.
Qed.

(** X19. After any calls of [dbg_correl_of] on one slot since program start,
    with pairs whose products fit int64_t, the six counters of the slot are
    the number of calls, the sums of the first and of the second values,
    of their squares, and of their products, as int64_t. *)
Theorem dbg_correl_of_totals (values : list (Z * Z)) :
  Forall (fun p => in_int64 (fst p * fst p) /\ in_int64 (snd p * snd p)
                   /\ in_int64 (fst p * snd p)) values ->
  let d := fold_left (fun d p => dbg_correl_of (fst p) (snd p) slot d)
             values debug_tables_init in
  counter (correl d) slot 0 = wrap_int64 (Z.of_nat (List.length values))
  /\ counter (correl d) slot 1 = wrap_int64 (sum_values (map fst values))
  /\ counter (correl d) slot 2
     = wrap_int64 (sum_of_squares (map fst values))
  /\ counter (correl d) slot 3 = wrap_int64 (sum_values (map snd values))
  /\ counter (correl d) slot 4
     = wrap_int64 (sum_of_squares (map snd values))
  /\ counter (correl d) slot 5 = wrap_int64 (sum_of_products values).
Proof.
  intros H. cbv zeta.
  destruct (dbg_correl_of_counts values H debug_tables_init 0 0 0 0 0 0
              (zero_array_well_formed 6)
              (zero_array_counter 6 slot 0) (zero_array_counter 6 slot 1)
              (zero_array_counter 6 slot 2) (zero_array_counter 6 slot 3)
              (zero_array_counter 6 slot 4) (zero_array_counter 6 slot 5))
    as (_ & R).
  exact R.
Qed.

End DebugCounters.


(** ** Starting and stopping the log *)

Ltac use_consistent C :=
  try match type of C with
      | _ /\ _ =>
          let C1 := fresh in
          let C2 := fresh in
          destruct C as [C1 C2]; rewrite ?C1, ?C2
      end.

Section LoggerProperties.

Variable can_open : string -> bool.

(** X25. When [start_logger] returns, the streams are tied to the Logger and
    the named file is open if a name was given, and the streams are back on
    the buffers they had before the Logger and no file is open if the name
    was empty; the saved buffers never change and nothing is written to
    std::cerr. *)
Theorem start_logger_keeps_streams_consistent (fname : string) (s s' : Streams) :
  consistent s ->
  start_logger can_open fname s = start_returned s' ->
  consistent s'
  /\ original_buffers s' = original_buffers s
  /\ logging_to s' = (if String.eqb fname EmptyString then None else Some fname)
  /\ (cin_rdbuf s', cout_rdbuf s')
     = (if String.eqb fname EmptyString then original_buffers s
        else (logger_in, logger_out))
  /\ cerr_text s' = cerr_text s.
Proof.
  unfold start_logger, Logger_start, consistent, original_buffers, logging_to,
    is_open.
  intros C H.
  destruct (logger s) as [[[f|] i o]|] eqn:L; cbn in *;
    destruct (String.eqb fname EmptyString); cbn in *;
    try destruct (can_open fname); cbn in *;
    try discriminate H; injection H as <-; cbn; rewrite ?L;
    use_consistent C; auto.
Qed.

(** X26. When the log file cannot be opened, [start_logger] writes one
    message that names the file to std::cerr and stops the process with
    EXIT_FAILURE; by then a log that was active has been closed and the
    streams are on their own buffers again. *)
Theorem start_logger_open_failure (fname : string) (s : Streams) :
  consistent s ->
  fname <> EmptyString ->
  can_open fname = false ->
  exists s',
    start_logger can_open fname s = start_exited EXIT_FAILURE s'
    /\ cerr_text s'
       = (cerr_text s ++ "Unable to open debug log file " ++ fname ++ endl)%string
    /\ logging_to s' = None
    /\ (cin_rdbuf s', cout_rdbuf s') = original_buffers s.
Proof.
  unfold start_logger, Logger_start, consistent, original_buffers, logging_to,
    is_open.
  intros C N O. apply String.eqb_neq in N. rewrite N, O.
  destruct (logger s) as [[[f|] i o]|] eqn:L; cbn in *;
    eexists; (split; [reflexivity|]); cbn;
    use_consistent C; auto.
Qed.

(** X27. Starting the log and then calling [start_logger] with an empty name
    leaves std::cin and std::cout on the buffers they had before the Logger,
    with no file open. *)
Theorem start_logger_then_stop_restores_streams (fname : string)
    (s s1 s2 : Streams) :
  consistent s ->
  start_logger can_open fname s = start_returned s1 ->
  start_logger can_open EmptyString s1 = start_returned s2 ->
  logging_to s2 = None
  /\ (cin_rdbuf s2, cout_rdbuf s2) = original_buffers s
  /\ cerr_text s2 = cerr_text s.
Proof.
  unfold start_logger, Logger_start, consistent, original_buffers, logging_to,
    is_open.
  intros C H1 H2.
  destruct (logger s) as [[[f|] i o]|] eqn:L; cbn in *;
    destruct (String.eqb fname EmptyString); cbn in *;
    try destruct (can_open fname); cbn in *;
    try discriminate H1; injection H1 as <-; cbn in *;
    injection H2 as <-; cbn;
    use_consistent C; auto.
Qed.

End LoggerProperties.

(** ** The theorems at sample inputs *)

Lemma round_up_to_large_page_multiple_witness :
  round_up_to_large_page 1000 (2 * 1024 * 1024) mod (2 * 1024 * 1024) = 0
  /\ 0 <= round_up_to_large_page 1000 (2 * 1024 * 1024) < 2 ^ 64.
Proof.
  apply (round_up_to_large_page_multiple 1000 (2 * 1024 * 1024)).
  - vm_compute. reflexivity.
  - vm_compute. reflexivity.
Defined.

Lemma round_up_to_alignment_fixed_point_witness :
  round_up_to_alignment linux_x86_64 (4 * 1024 * 1024) = 4 * 1024 * 1024
  <-> (4 * 1024 * 1024) mod alignment linux_x86_64 = 0.
Proof.
  apply (round_up_to_alignment_fixed_point linux_x86_64 (4 * 1024 * 1024)).
  - lia.
  - vm_compute. reflexivity.
Defined.

Lemma std_aligned_free_matches_std_aligned_alloc_witness :
  In (_mm_malloc_call 128 64 1024)
    (trace (std_aligned_alloc windows_x64 sample_os 64 128 sample_world))
  /\ In (_mm_free_call 1024)
       (trace (std_aligned_free windows_x64 1024 sample_world))
  /\ MMAlloc = MMAlloc.
Proof.
  assert (I1 : In (_mm_malloc_call 128 64 1024)
                 (trace (std_aligned_alloc windows_x64 sample_os 64 128
                           sample_world)))
    by (vm_compute; left; reflexivity).
  assert (I2 : In (_mm_free_call 1024)
                 (trace (std_aligned_free windows_x64 1024 sample_world)))
    by (vm_compute; left; reflexivity).
  split; [exact I1|]. split; [exact I2|].
  apply (std_aligned_free_matches_std_aligned_alloc windows_x64 sample_os
           64 128 sample_world 1024 sample_world
           (_mm_malloc_call 128 64 1024) (_mm_free_call 1024)
           MMAlloc MMAlloc I1 eq_refl I2 eq_refl).
Defined.

Lemma large_pages_free_matches_large_pages_alloc_witness :
  In (VirtualAlloc_call nullptr (2 * 1024 * 1024)
        (Z.lor (Z.lor MEM_RESERVE MEM_COMMIT) MEM_LARGE_PAGES)
        PAGE_READWRITE 0x40000000)
    (trace (aligned_large_pages_alloc windows_x64 sample_os 1000
              sample_world))
  /\ In (VirtualFree_call 0x40000000 0 MEM_RELEASE true)
       (trace (aligned_large_pages_free windows_x64 sample_os 0x40000000
                 sample_world))
  /\ VirtualMemory = VirtualMemory.
Proof.
  assert (I1 : In (VirtualAlloc_call nullptr (2 * 1024 * 1024)
                     (Z.lor (Z.lor MEM_RESERVE MEM_COMMIT) MEM_LARGE_PAGES)
                     PAGE_READWRITE 0x40000000)
                 (trace (aligned_large_pages_alloc windows_x64 sample_os
                           1000 sample_world)))
    by (vm_compute; tauto).
  assert (I2 : In (VirtualFree_call 0x40000000 0 MEM_RELEASE true)
                 (trace (aligned_large_pages_free windows_x64 sample_os
                           0x40000000 sample_world)))
    by (vm_compute; tauto).
  split; [exact I1|]. split; [exact I2|].
  apply (large_pages_free_matches_large_pages_alloc windows_x64 sample_os
           1000 sample_world 0x40000000 sample_world _ _
           VirtualMemory VirtualMemory I1 eq_refl I2 eq_refl).
Defined.

Lemma allocate_then_free_restores_heap_witness :
  exists mem w' t w'' t',
    aligned_large_pages_alloc windows_x64 sample_os 1000 sample_world
    = Returned mem w' t
    /\ mem <> nullptr
    /\ aligned_large_pages_free windows_x64 sample_os mem w'
       = Returned tt w'' t'
    /\ heap w'' = heap sample_world
    /\ cerr w'' = cerr sample_world.
Proof.
  destruct (aligned_large_pages_alloc windows_x64 sample_os 1000
              sample_world) as [mem w' t|status w' t] eqn:E;
    [|vm_compute in E; discriminate].
  assert (N : mem <> nullptr).
  { vm_compute in E. injection E as <- _ _. discriminate. }
  destruct (allocate_then_free_restores_heap windows_x64 sample_os 1000
              sample_world mem w' t E) as (w'' & t' & F & H & C).
  - intros n []. 
  - intros _ _. reflexivity.
  - exists mem, w', t, w'', t'. auto.
Defined.

Lemma helper_early_exit_leaves_world_witness :
  let o := aligned_large_pages_alloc_windows windows_x64 sample_os_denied 1
             sample_world in
  value o = Some nullptr
  /\ heap (world_of o) = heap sample_world
  /\ token_privileges (world_of o) = token_privileges sample_world
  /\ open_handles (world_of o) = open_handles sample_world
  /\ cerr (world_of o) = cerr sample_world.
Proof.
  apply (helper_early_exit_leaves_world windows_x64 sample_os_denied 1
           sample_world).
  intros process access token H. vm_compute in H.
  repeat (destruct H as [H|H]; [discriminate H|]). exact H.
Defined.

Lemma str_to_size_t_decimal_witness :
  str_to_size_t linux_x86_64 "1024" sample_world
  = Returned 1024 sample_world [].
Proof.
  apply (str_to_size_t_decimal linux_x86_64 1024 sample_world).
  vm_compute. split; [discriminate|reflexivity].
Defined.

Lemma str_to_size_t_ignores_trailing_text_witness :
  str_to_size_t linux_x86_64 "16 MB" = str_to_size_t linux_x86_64 "16".
Proof.
  apply (str_to_size_t_ignores_trailing_text linux_x86_64 "16" " " "MB").
  reflexivity.
Defined.

Lemma binary_directory_of_bare_name_witness :
  get_binary_directory linux_x86_64 false sample_crt "pikafish"
  = "/opt/pikafish/"%string.
Proof.
  apply (binary_directory_of_bare_name linux_x86_64 false sample_crt
           "pikafish").
  reflexivity.
Defined.

Lemma binary_directory_of_path_witness :
  exists dir c name,
    program_path linux_x86_64 false sample_crt "./src/pikafish"
    = (dir ++ String c name)%string
    /\ String.length dir = 5%nat
    /\ is_separator c = true
    /\ find_last_of (String "092" "/") name = None
    /\ get_binary_directory linux_x86_64 false sample_crt "./src/pikafish"
       = if prefix ("." ++ pathSeparator linux_x86_64)
              (dir ++ String c EmptyString)
         then (get_working_directory sample_crt
               ++ substring 1 (String.length dir)
                    (dir ++ String c EmptyString))%string
         else (dir ++ String c EmptyString)%string.
Proof.
  apply (binary_directory_of_path linux_x86_64 false sample_crt
           "./src/pikafish" 5).
  reflexivity.
Defined.

Lemma engine_info_dev_build_witness :
  engine_info linux_x86_64
    {| GIT_DATE := None; GIT_SHA := None; __DATE__ := "Sep  7 2008" |} false
  = ("Pikafish dev-20080907-nogit by the Pikafish developers "
     ++ "(see AUTHORS file)")%string.
Proof.
  apply (engine_info_dev_build linux_x86_64 8 7 "2008" false).
  - lia.
  - lia.
  - reflexivity.
Defined.

Lemma dbg_hit_on_totals_witness :
  let d := fold_left (fun d c => dbg_hit_on c 3 d) [true; false; true]
             debug_tables_init in
  counter (hit d) 3 0 = 3 /\ counter (hit d) 3 1 = 2
  /\ counter (hit d) 3 1 <= counter (hit d) 3 0.
Proof.
  apply (dbg_hit_on_totals 3 ltac:(unfold MaxDebugSlots; lia)
           [true; false; true]).
  vm_compute. reflexivity.
Defined.

Lemma dbg_mean_of_totals_witness :
  let d := fold_left (fun d v => dbg_mean_of v 3 d) [5; -7; 9]
             debug_tables_init in
  counter (mean d) 3 0 = 3 /\ counter (mean d) 3 1 = 7.
Proof.
  apply (dbg_mean_of_totals 3 ltac:(unfold MaxDebugSlots; lia) [5; -7; 9]).
Defined.

Lemma dbg_stdev_of_totals_witness :
  let d := fold_left (fun d v => dbg_stdev_of v 3 d) [5; -7; 9]
             debug_tables_init in
  counter (stdev d) 3 0 = 3 /\ counter (stdev d) 3 1 = 7
  /\ counter (stdev d) 3 2 = 155.
Proof.
  apply (dbg_stdev_of_totals 3 ltac:(unfold MaxDebugSlots; lia) [5; -7; 9]).
  repeat constructor; vm_compute; discriminate.
Defined.

Lemma dbg_correl_of_totals_witness :
  let d := fold_left (fun d p => dbg_correl_of (fst p) (snd p) 3 d)
             [(1, 2); (-3, 4)] debug_tables_init in
  counter (correl d) 3 0 = 2
  /\ counter (correl d) 3 1 = -2
  /\ counter (correl d) 3 2 = 10
  /\ counter (correl d) 3 3 = 6
  /\ counter (correl d) 3 4 = 20
  /\ counter (correl d) 3 5 = -10.
Proof.
  apply (dbg_correl_of_totals 3 ltac:(unfold MaxDebugSlots; lia)
           [(1, 2); (-3, 4)]).
  repeat constructor; vm_compute; discriminate.
Defined.


Lemma tied_output_is_copied_and_logged_witness :
  let t := sample_tie EmptyString 64 256 in
  let s := ("id name Pikafish" ++ endl ++ "uciok" ++ endl)%string in
  written (Tie.cout_buffer (write_text s t)) = s
  /\ written (Tie.log_buffer (write_text s t))
     = ("<< id name Pikafish" ++ endl ++ "<< uciok" ++ endl)%string.
Proof.
  apply (tied_output_is_copied_and_logged (sample_tie EmptyString 64 256)
           ("id name Pikafish" ++ endl ++ "uciok" ++ endl)%string).
  - reflexivity.
  - vm_compute. lia.
  - vm_compute. lia.
Defined.


Lemma tie_hides_failure_of_the_wrapped_buffer_witness :
  let t := sample_tie EmptyString 0 256 in
  (Tie.underflow t = EOF
   /\ fst (Tie.uflow t) = 255
   /\ written (Tie.log_buffer (snd (Tie.uflow t)))
      = (">> " ++ String (to_char EOF) EmptyString)%string)
  /\ fst (Tie.overflow 97 t) = 255
  /\ written (Tie.cout_buffer (snd (Tie.overflow 97 t))) = EmptyString
  /\ written (Tie.log_buffer (snd (Tie.overflow 97 t)))
     = ("<< " ++ String (to_char EOF) EmptyString)%string.
Proof.
  destruct (tie_hides_failure_of_the_wrapped_buffer
              (sample_tie EmptyString 0 256) 97) as [U O].
  - vm_compute. lia.
  - split; [apply U; reflexivity|apply O; reflexivity].
Defined.

Lemma tie_reports_failure_of_the_log_witness :
  let t := sample_tie EmptyString 64 0 in
  fst (Tie.overflow (to_int_type "a") t) = EOF
  /\ written (Tie.cout_buffer (snd (Tie.overflow (to_int_type "a") t)))
     = "a"%string
  /\ written (Tie.log_buffer (snd (Tie.overflow (to_int_type "a") t)))
     = EmptyString.
Proof.
  apply (tie_reports_failure_of_the_log (sample_tie EmptyString 64 0) "a").
  - reflexivity.
  - vm_compute. lia.
Defined.

Lemma start_logger_keeps_streams_consistent_witness :
  let s' := {| cin_rdbuf := logger_in; cout_rdbuf := logger_out;
               logger := Some {| file := Some "io.log"%string;
                                 in_buf := outside 0;
                                 out_buf := outside 1 |};
               cerr_text := EmptyString |} in
  start_logger (fun _ => true) "io.log" sample_streams = start_returned s'
  /\ consistent s'
  /\ original_buffers s' = original_buffers sample_streams
  /\ logging_to s' = Some "io.log"%string
  /\ (cin_rdbuf s', cout_rdbuf s') = (logger_in, logger_out)
  /\ cerr_text s' = cerr_text sample_streams.
Proof.
  split; [reflexivity|].
  apply (start_logger_keeps_streams_consistent (fun _ => true) "io.log"
           sample_streams).
  - exact I.
  - reflexivity.
Defined.

Lemma start_logger_open_failure_witness :
  exists s',
    start_logger (fun _ => false) "io.log" sample_streams
    = start_exited EXIT_FAILURE s'
    /\ cerr_text s'
       = ("Unable to open debug log file io.log" ++ endl)%string
    /\ logging_to s' = None
    /\ (cin_rdbuf s', cout_rdbuf s') = (outside 0, outside 1).
Proof.
  apply (start_logger_open_failure (fun _ => false) "io.log"
           sample_streams).
  - exact I.
  - discriminate.
  - reflexivity.
Defined.

Lemma start_logger_then_stop_restores_streams_witness :
  exists s1 s2,
    start_logger (fun _ => true) "io.log" sample_streams = start_returned s1
    /\ start_logger (fun _ => true) EmptyString s1 = start_returned s2
    /\ logging_to s2 = None
    /\ (cin_rdbuf s2, cout_rdbuf s2) = (outside 0, outside 1)
    /\ cerr_text s2 = EmptyString.
Proof.
  eexists. eexists. split; [reflexivity|]. split; [reflexivity|].
  eapply (start_logger_then_stop_restores_streams (fun _ => true) "io.log"
            sample_streams).
  - exact I.
  - reflexivity.
  - reflexivity.
Defined.
